(** * The network layout hook ([packages/network/src/hooks.ts])

    A shallow embedding of [computeForces], [useNodeColor],
    [useLinkThickness] and [useNetwork], over a small model of the
    JavaScript values and objects the hook manipulates.

    - Objects live in a store and are named by their address: the copies
      the effect makes, the references the link force puts into the
      links, the records the rendering returns and the nodes of the
      previous run that the links point to are all addresses, so that
      what is written in place and what is allocated can be told apart.
    - The hook is a state machine over its two state cells:
      [useNetwork_effect] is the callback of [useEffect], [useNetwork]
      the rendering that computes the two arrays the hook returns, and
      [update] one run of the effect on the cells.
    - [d3-force] is not part of the sources. What the hook relies on is
      kept: that the simulation gives positions to the node copies, that
      the link force replaces the endpoint ids of the links by node
      references, and fails on an id that no node has. The numbers it
      computes are left to a parameter. *)

From Stdlib Require Import PrimFloat.
From stdpp Require Import gmap strings list fin_maps.

Local Open Scope string_scope.
Local Open Scope list_scope.
Local Open Scope nat_scope.

(** ** JavaScript values

    Numbers are IEEE-754 doubles.  Functions and objects are reference
    values: a function is named by a handle, an object by its address in
    the object store. *)

Abbreviation loc := nat.

Inductive value :=
  | VUndefined
  | VNull
  | VBool (b : bool)
  | VNum (x : float)
  | VStr (s : string)
  | VFun (f : nat)
  | VRef (l : loc).

(** An object is a finite map from property names to values; the store is
    an arena of objects, an address being an index into it. *)
Abbreviation obj := (gmap string value).
Abbreviation heap := (list obj).

(** [o.k]: reading a property that is not there gives [undefined]. *)
Definition get (o : obj) (k : string) : value := default VUndefined (o !! k).

(** The object at an address. *)
Definition deref (h : heap) (l : loc) : obj := default ∅ (h !! l).

(** [typeof v === 'function'], lodash's [isNumber] and [isString]. *)
Definition is_function (v : value) : bool :=
  match v with VFun _ => true | _ => false end.

Definition isNumber (v : value) : bool :=
  match v with VNum _ => true | _ => false end.

Definition isString (v : value) : bool :=
  match v with VStr _ => true | _ => false end.

(** [a === b]. On numbers this is IEEE equality: [NaN] differs from
    itself and the two zeros are equal. *)
Definition strict_equals (a b : value) : bool :=
  match a, b with
  | VUndefined, VUndefined => true
  | VNull, VNull => true
  | VBool x, VBool y => Bool.eqb x y
  | VNum x, VNum y => PrimFloat.eqb x y
  | VStr s, VStr t => String.eqb s t
  | VFun f, VFun g => Nat.eqb f g
  | VRef l, VRef m => Nat.eqb l m
  | _, _ => false
  end.

(** A default parameter value ([x = d] in a parameter list) replaces
    exactly [undefined]. *)
Definition default_to (d v : value) : value :=
  match v with VUndefined => d | _ => v end.

(** ** Exceptions and the store monad *)

Inductive exn :=
  | DanglingReferenceError (id : value)
  | TypeError.

(** A computation reads and updates the store and either returns or
    throws; the store survives a throw. *)
Definition M (A : Type) : Type := heap → heap * (exn + A).

Definition ret {A} (a : A) : M A := λ h, (h, inr a).

Definition throw {A} (e : exn) : M A := λ h, (h, inl e).

Definition bind {A B} (m : M A) (k : A → M B) : M B :=
  λ h, match m h with
       | (h', inr a) => k a h'
       | (h', inl e) => (h', inl e)
       end.

Notation "x <- m ;; k" := (bind m (λ x, k))
  (at level 100, m at next level, right associativity).
Notation "m ;;; k" := (bind m (λ _, k))
  (at level 100, right associativity).

(** [{ ... }]: a new object is put at the end of the arena. *)
Definition alloc (o : obj) : M loc := λ h, (h ++ [o], inr (length h)).

(** [l.k = v]. *)
Definition write (l : loc) (k : string) (v : value) (h : heap) : heap :=
  alter (insert k v) l h.

Definition assign (l : loc) (k : string) (v : value) : M unit :=
  λ h, (write l k v h, inr tt).

(** A computation that only reads the store. *)
Definition reading {A} (f : heap → exn + A) : M A := λ h, (h, f h).

(** [v.k] for a value [v]: a [TypeError] on [undefined] and [null],
    [undefined] on the other primitives (they have no such property
    here). *)
Definition member (v : value) (k : string) (h : heap) : exn + value :=
  match v with
  | VRef l => inr (get (deref h l) k)
  | VUndefined | VNull => inl TypeError
  | _ => inr VUndefined
  end.

(** [xs.map(f)]. *)
Fixpoint mapM {A B} (f : A → M B) (xs : list A) : M (list B) :=
  match xs with
  | [] => ret []
  | x :: xs' => y <- f x ;; ys <- mapM f xs' ;; ret (y :: ys)
  end.

(** [xs.find(p)] where the predicate reads the store. *)
Fixpoint findM (p : loc → heap → exn + bool) (xs : list loc) (h : heap)
  : exn + option loc :=
  match xs with
  | [] => inr None
  | x :: xs' =>
      match p x h with
      | inl e => inl e
      | inr true => inr (Some x)
      | inr false => findM p xs' h
      end
  end.

(** ** Forces *)

(** The value of [getLinkDistance] when it is defined: the caller's
    number or function as it is, or the closure
    [(link) => get(link, linkDistance)] over a path. *)
Inductive DistanceAccessor :=
  | Given (v : value)
  | GetPath (path : value).

Record Body := { bx : float; by_ : float; bvx : float; bvy : float }.

Module Forces.

Record LinkForce := {
  id : obj → value;
  distance : option DistanceAccessor;
}.

Record ChargeForce := {
  strength : float;
  distanceMin : float;
  distanceMax : float;
}.

Record CenterForce := { x : float; y : float }.

Record t := { link : LinkForce; charge : ChargeForce; center : CenterForce }.

End Forces.

(** [computeForces]. [getLinkDistance] stays [undefined] ([None]) when
    [linkDistance] is neither a function, a number nor a string. *)
Definition computeForces (linkDistance : value)
    (repulsivity distanceMin distanceMax : float) (center : float * float)
  : Forces.t :=
  let getLinkDistance :=
    if is_function linkDistance then Some (Given linkDistance)
    else if isNumber linkDistance then Some (Given linkDistance)
    else if isString linkDistance then Some (GetPath linkDistance)
    else None in
  let linkForce :=
    {| Forces.id := λ d, get d "id"; Forces.distance := getLinkDistance |} in
  let chargeForce :=
    {| Forces.strength := (- repulsivity)%float;
       Forces.distanceMin := distanceMin;
       Forces.distanceMax := distanceMax |} in
  let centerForce := {| Forces.x := center.1; Forces.y := center.2 |} in
  {| Forces.link := linkForce; Forces.charge := chargeForce;
     Forces.center := centerForce |}.

(** ** Properties and defaults *)

Record Props := {
  center : float * float;
  nodes : list obj;
  links : list obj;
  linkDistance : value;
  repulsivity : option float;
  distanceMin : option float;
  distanceMax : option float;
  iterations : option float;
  nodeColor : value;
  nodeBorderWidth : value;
  nodeBorderColor : value;
  linkThickness : value;
  linkColor : value;
}.

(** [commonDefaultProps] of [./defaults]. *)
Module Defaults.

Record t := {
  linkDistance : value;
  repulsivity : float;
  distanceMin : float;
  distanceMax : float;
  iterations : float;
  nodeColor : value;
  nodeBorderWidth : value;
  nodeBorderColor : value;
  linkThickness : value;
  linkColor : value;
}.

End Defaults.

(** The two state cells of the hook; [None] is [null]. *)
Record State := {
  currentNodes : option (list loc);
  currentLinks : option (list loc);
}.

(** [useState(null)], twice. *)
Definition initialState : State :=
  {| currentNodes := None; currentLinks := None |}.

(** ** What the hook takes from its environment

    The caller's functions, which may read the store; the string
    conversion of numbers and of references (that of their own
    [toString]); the inherited colours of [@nivo/colors], with the theme
    applied; and the numerical integration of [d3-force], which works on
    floating-point positions and is left unspecified: the position and
    velocity it gives the node of each index. *)
Record Host := {
  call : nat → heap → value → value;
  number_to_string : float → string;
  object_to_string : value → string;
  useInheritedColor : value → heap → value → value;
  initial_body : heap → list loc → nat → Body;
  settled_body :
    Forces.t → float → heap → list loc → list loc → nat → Body;
}.

(** [xs.forEach(f)] and the loops over an array that only update it. *)
Fixpoint iterM {A} (f : A → M unit) (xs : list A) : M unit :=
  match xs with
  | [] => ret tt
  | x :: xs' => f x ;;; iterM f xs'
  end.

(** [{ ...source, <the properties of target> }] written the other way
    round: the properties of [source] are copied over those of [target]. *)
Definition spread (source target : obj) : obj := source ∪ target.

(** The position and velocity of a node, written into its object. *)
Definition write_body (l : loc) (b : Body) (h : heap) : heap :=
  write l "vy" (VNum (bvy b))
    (write l "vx" (VNum (bvx b))
      (write l "y" (VNum (by_ b))
        (write l "x" (VNum (bx b)) h))).

Fixpoint place (body : nat → Body) (i : nat) (ns : list loc) (h : heap)
  : heap :=
  match ns with
  | [] => h
  | n :: ns' => place body (S i) ns' (write_body n (body i) h)
  end.

(** ** A small graph

    Two nodes [a] and [b] and links between them, with a host whose
    function [0] returns the id of the entity it is given and whose
    function [1] returns the number 5. *)

Definition demo_host : Host := {|
  call := λ f h v,
    match f, v with
    | 0, VRef l => get (deref h l) "id"
    | 0, _ => VUndefined
    | _, _ => VNum 5
    end;
  number_to_string := λ _, "0";
  object_to_string := λ _, "[object Object]";
  useInheritedColor := λ config _ _, config;
  initial_body := λ _ _ _, {| bx := 0; by_ := 0; bvx := 0; bvy := 0 |};
  settled_body := λ _ _ _ _ _ _, {| bx := 1; by_ := 2; bvx := 0; bvy := 0 |};
|}.

Definition demo_defaults : Defaults.t := {|
  Defaults.linkDistance := VNum 30;
  Defaults.repulsivity := 10;
  Defaults.distanceMin := 1;
  Defaults.distanceMax := infinity;
  Defaults.iterations := 90;
  Defaults.nodeColor := VStr "black";
  Defaults.nodeBorderWidth := VNum 0;
  Defaults.nodeBorderColor := VStr "grey";
  Defaults.linkThickness := VNum 1;
  Defaults.linkColor := VStr "silver";
|}.

Definition demo_node (id : string) : obj := {[ "id" := VStr id ]}.

Definition demo_link (source target : string) : obj :=
  <[ "target" := VStr target ]> {[ "source" := VStr source ]}.

Definition demo_props (ns ls : list obj) (distance color width : value)
  : Props := {|
  center := (0, 0)%float;
  nodes := ns;
  links := ls;
  linkDistance := distance;
  repulsivity := None;
  distanceMin := None;
  distanceMax := None;
  iterations := None;
  nodeColor := color;
  nodeBorderWidth := width;
  nodeBorderColor := VUndefined;
  linkThickness := VUndefined;
  linkColor := VUndefined;
|}.

(** The graph [a → b], its node colour a constant. *)
Definition demo_graph : Props :=
  demo_props [demo_node "a"; demo_node "b"] [demo_link "a" "b"]
    (VNum 50) (VStr "red") (VNum 2).

(** The link [a → z] where no node is [z]. *)
Definition demo_dangling : Props :=
  demo_props [demo_node "a"] [demo_link "a" "z"] (VNum 50) (VStr "red") (VNum 2).

(** A boolean in the place of the link distance. *)
Definition demo_boolean_distance : Props :=
  demo_props [demo_node "a"; demo_node "b"] [demo_link "a" "b"]
    (VBool true) (VStr "red") (VNum 2).

(** Functions in the places of the node colour and of the border width. *)
Definition demo_functions : Props :=
  demo_props [demo_node "a"; demo_node "b"] [demo_link "a" "b"]
    (VNum 50) (VFun 0) (VFun 1).

(** No node and no link. *)
Definition demo_empty : Props :=
  demo_props [] [] (VNum 50) (VStr "red") (VNum 2).

(** A link that comes with an [id] of its own. *)
Definition demo_own_id : Props :=
  demo_props [demo_node "a"; demo_node "b"]
    [<[ "id" := VStr "first" ]> (demo_link "a" "b"); demo_link "b" "a"]
    (VNum 50) (VStr "red") (VNum 2).

Section Hook.

Variable host : Host.
Variable commonDefaultProps : Defaults.t.

(** The string a template literal makes of a value. *)
Definition to_string (v : value) : string :=
  match v with
  | VStr s => s
  | VUndefined => "undefined"
  | VNull => "null"
  | VBool true => "true"
  | VBool false => "false"
  | VNum x => number_to_string host x
  | VFun _ | VRef _ => object_to_string host v
  end.

(** The call [fn(arg)] of a caller's function. *)
Definition call_function (fn : value) (h : heap) (arg : value) : value :=
  match fn with
  | VFun f => call host f h arg
  | _ => VUndefined
  end.

(** [useNodeColor] and [useLinkThickness]: a function is kept, a constant
    becomes the function that returns it. *)
Definition useNodeColor (color : value) : heap → value → value :=
  if is_function color then call_function color else λ _ _, color.

Definition useLinkThickness (thickness : value) : heap → value → value :=
  if is_function thickness then call_function thickness else λ _ _, thickness.

(** Modelled from the spec: [forceSimulation(nodes)] of d3-force, which is
    not under src/. Every node copy is augmented with a position [x], [y]
    and a velocity. *)
Definition forceSimulation (nodesCopy : list loc) : M unit :=
  λ h, (place (initial_body host h nodesCopy) 0 nodesCopy h, inr tt).

(** Modelled from the spec: the resolution of the endpoints of a link by
    the link force of d3-force, which is not under src/. The [source] and
    [target] ids of every link are replaced by references to the node copy
    with that id (ids are compared through the [id] accessor the hook
    gives the force); an id that no node has fails the run with a
    [DanglingReferenceError]. *)
Definition find_node (id : obj → value) (nodesCopy : list loc) (key : value)
    (h : heap) : option loc :=
  List.find (λ n, strict_equals (id (deref h n)) key) nodesCopy.

Definition resolve (id : obj → value) (nodesCopy : list loc) (link : loc)
    (endpoint : string) : M unit :=
  λ h,
    let key := get (deref h link) endpoint in
    match find_node id nodesCopy key h with
    | Some n => (write link endpoint (VRef n) h, inr tt)
    | None => (h, inl (DanglingReferenceError key))
    end.

Definition force_link (f : Forces.LinkForce) (nodesCopy linksCopy : list loc)
  : M unit :=
  iterM (λ link,
           resolve (Forces.id f) nodesCopy link "source" ;;;
           resolve (Forces.id f) nodesCopy link "target")
        linksCopy.

(** Modelled from the spec: [simulation.tick(iterations)] of d3-force,
    which is not under src/. The fixed number of relaxation steps is run
    and every node copy receives its final position and velocity. *)
Definition tick (forces : Forces.t) (iterations : float)
    (nodesCopy linksCopy : list loc) : M unit :=
  λ h,
    (place (settled_body host forces iterations h nodesCopy linksCopy)
       0 nodesCopy h,
     inr tt).

(** [n.id === link.source.id] (or [link.target.id]). *)
Definition same_id (link : loc) (endpoint : string) (n : loc) (h : heap)
  : exn + bool :=
  match member (get (deref h link) endpoint) "id" h with
  | inl e => inl e
  | inr i => inr (strict_equals (get (deref h n) "id") i)
  end.

(** [currentNodes ? currentNodes.find(n => n.id === link.source.id)
    : undefined]. *)
Definition previous (current : option (list loc)) (link : loc)
    (endpoint : string) (h : heap) : exn + value :=
  match current with
  | None => inr VUndefined
  | Some ns =>
      match findM (same_id link endpoint) ns h with
      | inl e => inl e
      | inr (Some n) => inr (VRef n)
      | inr None => inr VUndefined
      end
  end.

(** The body of the last [map] of the effect, which updates the link it
    is given and returns it. *)
Definition set_previous (current : option (list loc)) (link : loc) : M unit :=
  s <- reading (previous current link "source") ;;
  assign link "previousSource" s ;;;
  t <- reading (previous current link "target") ;;
  assign link "previousTarget" t.

(** The forces of a run, with the defaults of the parameters that were
    not given. *)
Definition effect_forces (p : Props) : Forces.t :=
  computeForces
    (default_to (Defaults.linkDistance commonDefaultProps) (linkDistance p))
    (default (Defaults.repulsivity commonDefaultProps) (repulsivity p))
    (default (Defaults.distanceMin commonDefaultProps) (distanceMin p))
    (default (Defaults.distanceMax commonDefaultProps) (distanceMax p))
    ((center p).1, (center p).2).

(** [{ id: `${link.source}.${link.target}`, ...link }]. *)
Definition link_copy (link : obj) : obj :=
  spread link
    {[ "id" := VStr (to_string (get link "source") +:+ "." +:+
                     to_string (get link "target")) ]}.

(** The callback of [useEffect]: one run of the layout. [st] holds the
    state cells as the callback sees them, that is as they were at the
    rendering that scheduled it. The new values of the two cells are
    returned together: between [setCurrentNodes] and [setCurrentLinks]
    there is only the loop over the links, which does not throw once the
    link force has gone through ([effect_spec] below). *)
Definition useNetwork_effect (p : Props) (st : State) : M State :=
  let forces := effect_forces p in
  nodesCopy <- mapM (λ node, alloc (spread node ∅)) (nodes p) ;;
  linksCopy <- mapM (λ link, alloc (link_copy link)) (links p) ;;
  forceSimulation nodesCopy ;;;
  force_link (Forces.link forces) nodesCopy linksCopy ;;;
  tick forces (default (Defaults.iterations commonDefaultProps) (iterations p))
    nodesCopy linksCopy ;;;
  iterM (set_previous (currentNodes st)) linksCopy ;;;
  ret {| currentNodes := Some nodesCopy; currentLinks := Some linksCopy |}.

(** The rendering part of [useNetwork]: the two memoised arrays it
    returns, computed from the state cells. *)
Definition styled_node (p : Props) (node : loc) (h : heap) : obj :=
  let getNodeColor :=
    useNodeColor (default_to (Defaults.nodeColor commonDefaultProps) (nodeColor p)) in
  let nodeBorderWidth :=
    default_to (Defaults.nodeBorderWidth commonDefaultProps) (nodeBorderWidth p) in
  let getNodeBorderColor :=
    useInheritedColor host
      (default_to (Defaults.nodeBorderColor commonDefaultProps) (nodeBorderColor p)) in
  <[ "borderColor" := getNodeBorderColor h (VRef node) ]>
    (<[ "borderWidth" := nodeBorderWidth ]>
      (<[ "color" := getNodeColor h (VRef node) ]>
        (spread (deref h node) ∅))).

Definition enhancedNodes (p : Props) (st : State) : M (option (list loc)) :=
  match currentNodes st with
  | None => ret None
  | Some ns =>
      r <- mapM (λ node,
                   o <- reading (λ h, inr (styled_node p node h)) ;; alloc o)
                ns ;;
      ret (Some r)
  end.

Definition styled_link (p : Props) (link : loc) (h : heap) : obj :=
  let getLinkThickness :=
    useLinkThickness
      (default_to (Defaults.linkThickness commonDefaultProps) (linkThickness p)) in
  let getLinkColor :=
    useInheritedColor host
      (default_to (Defaults.linkColor commonDefaultProps) (linkColor p)) in
  <[ "color" := getLinkColor h (VRef link) ]>
    (<[ "thickness" := getLinkThickness h (VRef link) ]>
      (spread (deref h link) ∅)).

Definition enhancedLinks (p : Props) (st : State) : M (option (list loc)) :=
  match currentLinks st with
  | None => ret None
  | Some ls =>
      r <- mapM (λ link,
                   o <- reading (λ h, inr (styled_link p link h)) ;; alloc o)
                ls ;;
      ret (Some r)
  end.

Definition useNetwork (p : Props) (st : State)
  : M (option (list loc) * option (list loc)) :=
  ns <- enhancedNodes p st ;;
  ls <- enhancedLinks p st ;;
  ret (ns, ls).

(** One update of the component: the effect runs against the state cells
    of the last rendering; when it throws the cells keep their values. *)
Definition update (p : Props) (st : State) (h : heap) : heap * State :=
  match useNetwork_effect p st h with
  | (h', inr st') => (h', st')
  | (h', inl _) => (h', st)
  end.

(** ** Specification vocabulary *)

(** [h'] has the objects of [h], at the same addresses, and the same
    properties in them except where [touched] allows a change. *)
Definition unchanged_outside (touched : loc → string → Prop) (h h' : heap)
  : Prop :=
  length h' = length h ∧
  ∀ l k, ¬ touched l k → deref h' l !! k = deref h l !! k.

(** The properties [keys] of the objects at the addresses [ls]. *)
Definition within (ls : list loc) (keys : list string) (l : loc) (k : string)
  : Prop :=
  l ∈ ls ∧ k ∈ keys.

(** The properties the simulation writes into a node. *)
Definition body_keys : list string := ["x"; "y"; "vx"; "vy"].

(** The objects [xs.map(x => g(x))] allocates from the store [h] on. *)
Fixpoint allocs {A} (g : A → heap → obj) (xs : list A) (h : heap)
  : list obj :=
  match xs with
  | [] => []
  | x :: xs' => g x h :: allocs g xs' (h ++ [g x h])
  end.

(** Whether some node has the id [key], and whether a link of the input
    names an id that no node has. *)
Definition resolvable (ns : list obj) (key : value) : bool :=
  existsb (λ node, strict_equals (get node "id") key) ns.

Definition dangling (p : Props) : bool :=
  existsb (λ link,
             negb (resolvable (nodes p) (get link "source")) ||
             negb (resolvable (nodes p) (get link "target")))
          (links p).

(** The node of the previous run that has the id [id]: the first of the
    array, [undefined] when there is none or when there was no previous
    run. *)
Definition previous_node (current : option (list loc)) (id : value) (h : heap)
  : value :=
  match current with
  | None => VUndefined
  | Some ns =>
      match List.find (λ n, strict_equals (get (deref h n) "id") id) ns with
      | Some n => VRef n
      | None => VUndefined
      end
  end.

(** The properties the link force and the effect write into a link. *)
Definition endpoint_keys : list string := ["source"; "target"].
Definition previous_keys : list string := ["previousSource"; "previousTarget"].

(** The copies a run allocates from the store [h] on: their addresses and
    the store once they are made. *)
Definition nodes_at (p : Props) (h : heap) : list loc :=
  seq (length h) (length (nodes p)).

Definition links_at (p : Props) (h : heap) : list loc :=
  seq (length h + length (nodes p)) (length (links p)).

Definition copied (p : Props) (h : heap) : heap :=
  (h ++ map (λ node, spread node ∅) (nodes p)) ++ map link_copy (links p).

(** What a run may write: position and velocity of its node copies,
    endpoints and previous endpoints of its link copies. *)
Definition run_touched (p : Props) (h : heap) (l : loc) (k : string) : Prop :=
  within (nodes_at p h) body_keys l k ∨
  within (links_at p h) (endpoint_keys ++ previous_keys) l k.

(** The state cells hold addresses of the store. *)
Definition allocated (st : State) (h : heap) : bool :=
  forallb (λ l, l <? length h) (default [] (currentNodes st)) &&
  forallb (λ l, l <? length h) (default [] (currentLinks st)).

(** The records the rendering allocates from the store [h] on. *)
Definition styled_nodes (p : Props) (st : State) (h : heap) : list obj :=
  match currentNodes st with
  | Some ns => allocs (styled_node p) ns h
  | None => []
  end.

Definition styled_links (p : Props) (st : State) (h : heap) : list obj :=
  match currentLinks st with
  | Some ls => allocs (styled_link p) ls h
  | None => []
  end.

(** The properties the rendering adds to a node and to a link. *)
Definition node_style_keys : list string := ["color"; "borderWidth"; "borderColor"].
Definition link_style_keys : list string := ["thickness"; "color"].

(** Closes a goal that a property name is in a list of names, and a
    goal that it belongs to a list of other names. *)
Ltac key_in :=
  unfold endpoint_keys, previous_keys, body_keys, node_style_keys,
    link_style_keys;
  simpl; repeat constructor.

Ltac key_out :=
  unfold endpoint_keys, previous_keys, body_keys, node_style_keys,
    link_style_keys;
  simpl; rewrite ?not_elem_of_cons;
  repeat split; (discriminate || apply not_elem_of_nil).

Ltac not_key :=
  let H := fresh in
  intros [_ H];
  repeat (apply elem_of_cons in H as [H|H]; [discriminate|]);
  by apply elem_of_nil in H.

(** ** The node transitions ([NetworkNodes.tsx])

    [getEnterTransition], [getRegularTransition] and [getExitTransition]:
    the animated properties of a node when it enters, while it stays and
    when it leaves. *)
Definition getEnterTransition (node : obj) : obj :=
  <[ "scale" := VNum 0 ]>
    (<[ "borderColor" := get node "borderColor" ]>
      (<[ "borderWidth" := get node "borderWidth" ]>
        (<[ "color" := get node "color" ]>
          (<[ "radius" := get node "radius" ]>
            (<[ "y" := get node "y" ]>
              {[ "x" := get node "x" ]}))))).

Definition getRegularTransition (node : obj) : obj :=
  <[ "scale" := VNum 1 ]>
    (<[ "borderColor" := get node "borderColor" ]>
      (<[ "borderWidth" := get node "borderWidth" ]>
        (<[ "color" := get node "color" ]>
          (<[ "radius" := get node "radius" ]>
            (<[ "y" := get node "y" ]>
              {[ "x" := get node "x" ]}))))).

Definition getExitTransition (node : obj) : obj :=
  <[ "scale" := VNum 0 ]>
    (<[ "borderColor" := get node "borderColor" ]>
      (<[ "borderWidth" := get node "borderWidth" ]>
        (<[ "color" := get node "color" ]>
          (<[ "radius" := get node "radius" ]>
            (<[ "y" := get node "y" ]>
              {[ "x" := get node "x" ]}))))).

(** The properties of a transition. *)
Definition transition_keys : list string :=
  ["x"; "y"; "radius"; "color"; "borderWidth"; "borderColor"; "scale"].

(** ** More vocabulary *)

(** The properties a simulation of d3-force writes into the nodes and
    into the links it is given. *)
Definition simulation_keys : list string := ["index"; "x"; "y"; "vx"; "vy"].
Definition link_simulation_keys : list string := ["index"; "source"; "target"].


(** The properties with every omitted parameter replaced by its
    default. *)
Definition with_defaults (p : Props) : Props := {|
  center := center p;
  nodes := nodes p;
  links := links p;
  linkDistance :=
    default_to (Defaults.linkDistance commonDefaultProps) (linkDistance p);
  repulsivity :=
    Some (default (Defaults.repulsivity commonDefaultProps) (repulsivity p));
  distanceMin :=
    Some (default (Defaults.distanceMin commonDefaultProps) (distanceMin p));
  distanceMax :=
    Some (default (Defaults.distanceMax commonDefaultProps) (distanceMax p));
  iterations :=
    Some (default (Defaults.iterations commonDefaultProps) (iterations p));
  nodeColor := default_to (Defaults.nodeColor commonDefaultProps) (nodeColor p);
  nodeBorderWidth :=
    default_to (Defaults.nodeBorderWidth commonDefaultProps) (nodeBorderWidth p);
  nodeBorderColor :=
    default_to (Defaults.nodeBorderColor commonDefaultProps) (nodeBorderColor p);
  linkThickness :=
    default_to (Defaults.linkThickness commonDefaultProps) (linkThickness p);
  linkColor := default_to (Defaults.linkColor commonDefaultProps) (linkColor p);
|}.

(** The component after a sequence of updates, each with its own
    properties. *)
Definition updates (ps : list Props) (h : heap) (st : State) : heap * State :=
  foldl (λ r p, update p r.2 r.1) (h, st) ps.

(** The two state cells are [null] together. *)
Definition both_or_none (st : State) : bool :=
  match currentNodes st, currentLinks st with
  | None, None | Some _, Some _ => true
  | _, _ => false
  end.

(** From a hypothesis [H] that a name is outside a list of names, that it
    is outside a part of it. *)
Ltac other_keys H :=
  let Hin := fresh in
  intros Hin; apply H; revert Hin;
  unfold simulation_keys, link_simulation_keys, transition_keys,
    endpoint_keys, previous_keys, body_keys, node_style_keys, link_style_keys;
  simpl; rewrite ?elem_of_cons, ?elem_of_nil; tauto.

(** * The store *)

Lemma length_write l k v h : length (write l k v h) = length h.
Proof. apply length_alter. Qed.

Lemma deref_write_ne l l' k v h :
  l ≠ l' → deref (write l k v h) l' = deref h l'.
Proof. intros Hne. unfold deref, write. by rewrite list_lookup_alter_ne. Qed.

Lemma deref_write_eq l k v h :
  l < length h → deref (write l k v h) l = <[k:=v]> (deref h l).
Proof.
  intros Hlt. destruct (lookup_lt_is_Some_2 h l Hlt) as [o Ho].
  unfold deref, write. rewrite list_lookup_alter_eq, Ho. reflexivity.
Qed.

Lemma write_ge l k v h : length h ≤ l → write l k v h = h.
Proof.
  intros Hge. unfold write. apply list_eq. intros i.
  destruct (decide (l = i)) as [<-|Hne].
  - rewrite list_lookup_alter_eq. by rewrite (lookup_ge_None_2 h l Hge).
  - by rewrite list_lookup_alter_ne.
Qed.

Lemma lookup_write_eq l k v h :
  l < length h → deref (write l k v h) l !! k = Some v.
Proof. intros Hlt. rewrite deref_write_eq by done. apply lookup_insert_eq. Qed.

Lemma lookup_write_ne l l' k k' v h :
  l ≠ l' ∨ k ≠ k' → deref (write l k v h) l' !! k' = deref h l' !! k'.
Proof.
  intros Hne. destruct (decide (l = l')) as [<-|Hl].
  - destruct Hne as [?|Hk]; [done|].
    destruct (decide (l < length h)) as [Hlt|Hge].
    + rewrite deref_write_eq by done. by rewrite lookup_insert_ne.
    + rewrite write_ge by lia. done.
  - by rewrite deref_write_ne.
Qed.

Lemma deref_app_l (h k : heap) l : l < length h → deref (h ++ k) l = deref h l.
Proof. intros Hlt. unfold deref. by rewrite lookup_app_l. Qed.

Lemma deref_app_r (h k : heap) i :
  deref (h ++ k) (length h + i) = default ∅ (k !! i).
Proof.
  unfold deref. rewrite lookup_app_r by lia.
  by replace (length h + i - length h) with i by lia.
Qed.

Lemma deref_prefix (h h' : heap) l :
  h `prefix_of` h' → l < length h → deref h' l = deref h l.
Proof. intros [k ->] Hlt. by apply deref_app_l. Qed.

(** ** Frames *)

Lemma unchanged_refl T h : unchanged_outside T h h.
Proof. by split. Qed.

Lemma unchanged_trans T h1 h2 h3 :
  unchanged_outside T h1 h2 → unchanged_outside T h2 h3 →
  unchanged_outside T h1 h3.
Proof.
  intros [Hl1 H1] [Hl2 H2]. split; [congruence|].
  intros l k Hn. rewrite H2, H1; done.
Qed.

Lemma unchanged_weaken (T T' : loc → string → Prop) h h' :
  (∀ l k, T l k → T' l k) →
  unchanged_outside T h h' → unchanged_outside T' h h'.
Proof. intros HT [Hl H]. split; [done|]. intros l k Hn. apply H. auto. Qed.

Lemma unchanged_write (T : loc → string → Prop) l k v h :
  T l k → unchanged_outside T h (write l k v h).
Proof.
  intros HT. split; [apply length_write|].
  intros l' k' Hn. apply lookup_write_ne.
  destruct (decide (l = l')) as [<-|]; [|by left].
  destruct (decide (k = k')) as [<-|]; [done|by right].
Qed.

(** What is unchanged at every property of an address is the same
    object. *)
Lemma unchanged_deref (T : loc → string → Prop) h h' l :
  unchanged_outside T h h' → (∀ k, ¬ T l k) → deref h' l = deref h l.
Proof. intros [_ H] Hl. apply map_eq. intros k. apply H, Hl. Qed.

(** A run that only touches addresses from [length h0] on leaves the
    store [h0] it started from as a prefix. *)
Lemma unchanged_prefix (T : loc → string → Prop) (h0 h h' : heap) :
  h0 `prefix_of` h → unchanged_outside T h h' →
  (∀ l k, T l k → length h0 ≤ l) → h0 `prefix_of` h'.
Proof.
  intros Hpre [Hlen H] HT.
  assert (Hle : length h0 ≤ length h') by (rewrite Hlen; by apply prefix_length).
  exists (drop (length h0) h').
  rewrite <- (take_drop (length h0) h') at 1. f_equal.
  apply list_eq. intros i. destruct (decide (i < length h0)) as [Hi|Hi].
  - rewrite lookup_take_lt by done.
    assert (Hd : deref h' i = deref h i).
    { apply map_eq. intros k. apply H. intros HTi. apply HT in HTi. lia. }
    rewrite (prefix_lookup_lt h0 h i Hi Hpre).
    unfold deref in Hd.
    destruct (lookup_lt_is_Some_2 h' i ltac:(lia)) as [o' Ho'].
    destruct (lookup_lt_is_Some_2 h i ltac:(rewrite <- Hlen; lia)) as [o Ho].
    rewrite Ho', Ho in Hd |- *. simpl in Hd. by subst.
  - rewrite lookup_take_ge by lia. symmetry. apply lookup_ge_None_2. lia.
Qed.

Lemma place_unchanged body i ns h :
  unchanged_outside (within ns body_keys) h (place body i ns h).
Proof.
  revert i h. induction ns as [|n ns IH]; intros i h; simpl.
  - apply unchanged_refl.
  - eapply unchanged_trans; [|eapply unchanged_weaken; [|apply IH]].
    + unfold write_body.
      repeat (eapply unchanged_trans; [|apply unchanged_write]);
        [apply unchanged_refl|..]; (split; [left|key_in]).
    + intros l k [? ?]. split; [by right|done].
Qed.

(** ** Allocation *)

Lemma mapM_alloc_pure {A} (f : A → obj) xs h :
  mapM (λ x, alloc (f x)) xs h
  = (h ++ map f xs, inr (seq (length h) (length xs))).
Proof.
  revert h. induction xs as [|x xs IH]; intros h; simpl.
  - unfold ret. by rewrite app_nil_r.
  - unfold bind at 1. unfold alloc at 1. unfold bind at 1. rewrite IH.
    unfold ret. rewrite length_app, <- app_assoc. simpl.
    by replace (length h + 1) with (S (length h)) by lia.
Qed.

Lemma mapM_alloc {A} (g : A → heap → obj) xs h :
  mapM (λ x, o <- reading (λ h, inr (g x h)) ;; alloc o) xs h
  = (h ++ allocs g xs h, inr (seq (length h) (length xs))).
Proof.
  revert h. induction xs as [|x xs IH]; intros h; simpl.
  - unfold ret. by rewrite app_nil_r.
  - unfold bind at 1. unfold bind at 1. unfold reading at 1.
    unfold alloc at 1. unfold bind at 1. rewrite IH.
    unfold ret. rewrite length_app, <- app_assoc. simpl.
    by replace (length h + 1) with (S (length h)) by lia.
Qed.

Lemma length_allocs {A} (g : A → heap → obj) xs h :
  length (allocs g xs h) = length xs.
Proof. revert h. induction xs; intros h; simpl; [done|]. by rewrite IHxs. Qed.

(** The [i]-th object is made in the store extended with the first [i]. *)
Lemma allocs_lookup {A} (g : A → heap → obj) xs h i x :
  xs !! i = Some x →
  allocs g xs h !! i = Some (g x (h ++ take i (allocs g xs h))).
Proof.
  revert h i. induction xs as [|y xs IH]; intros h i Hi; [done|].
  destruct i as [|i]; simpl in *.
  - inversion Hi; subst. by rewrite app_nil_r.
  - rewrite (IH _ _ Hi). by rewrite <- app_assoc.
Qed.

(** ** The link force *)

Lemma find_node_frame (T : loc → string → Prop) ns key h h' :
  unchanged_outside T h h' → (∀ l, ¬ T l "id") →
  find_node (λ d, get d "id") ns key h'
  = find_node (λ d, get d "id") ns key h.
Proof.
  intros [_ H] HT. unfold find_node.
  induction ns as [|n ns IH]; simpl; [done|].
  unfold get at 1 3. rewrite (H n "id") by apply HT. by rewrite IH.
Qed.

Lemma find_node_in id ns key h n :
  find_node id ns key h = Some n → n ∈ ns.
Proof.
  unfold find_node. intros Hf. apply find_some in Hf as [Hin _].
  by apply list_elem_of_In.
Qed.

Lemma force_link_cons f ns l ls h :
  force_link f ns (l :: ls) h
  = match resolve (Forces.id f) ns l "source" h with
    | (h1, inr _) =>
        match resolve (Forces.id f) ns l "target" h1 with
        | (h2, inr _) => force_link f ns ls h2
        | (h2, inl e) => (h2, inl e)
        end
    | (h1, inl e) => (h1, inl e)
    end.
Proof.
  unfold force_link. simpl. unfold bind.
  destruct (resolve _ ns l "source" h) as [h1 [e|[]]]; [done|].
  destruct (resolve _ ns l "target" h1) as [h2 [e|[]]]; done.
Qed.

(** The link force either resolves both endpoints of every link, or
    stops at the first endpoint whose id no node has. *)
Lemma force_link_spec f ns ls h :
  Forces.id f = (λ d, get d "id") →
  NoDup ls → (∀ l, l ∈ ls → l < length h) →
  ∃ h', unchanged_outside (within ls endpoint_keys) h h' ∧
    ((force_link f ns ls h = (h', inr tt) ∧
      ∀ l, l ∈ ls → ∃ s t,
        find_node (λ d, get d "id") ns (get (deref h l) "source") h = Some s ∧
        find_node (λ d, get d "id") ns (get (deref h l) "target") h = Some t ∧
        deref h' l !! "source" = Some (VRef s) ∧
        deref h' l !! "target" = Some (VRef t)) ∨
     (∃ l e, l ∈ ls ∧ e ∈ endpoint_keys ∧
        find_node (λ d, get d "id") ns (get (deref h l) e) h = None ∧
        force_link f ns ls h
        = (h', inl (DanglingReferenceError (get (deref h l) e))))).
Proof.
  intros Hid. revert h. induction ls as [|l ls IH]; intros h Hnd Hlt.
  { exists h. split; [apply unchanged_refl|]. left. split; [done|].
    intros l Hl. by apply elem_of_nil in Hl. }
  apply NoDup_cons in Hnd as [Hl Hnd].
  assert (Hlh : l < length h) by (apply Hlt; left).
  rewrite force_link_cons. unfold resolve. rewrite Hid.
  destruct (find_node _ ns (get (deref h l) "source") h) as [s|] eqn:Hs; cycle 1.
  { exists h. split; [apply unchanged_refl|]. right.
    exists l, "source". split_and!; [left|key_in|done..]. }
  set (h1 := write l "source" (VRef s) h).
  assert (U1 : unchanged_outside (within (l :: ls) endpoint_keys) h h1).
  { apply unchanged_write. split; [left|key_in]. }
  assert (Hf1 : ∀ key, find_node (λ d, get d "id") ns key h1
                       = find_node (λ d, get d "id") ns key h).
  { intros key. eapply find_node_frame; [apply U1|]. intros l0. not_key. }
  assert (Hk1 : get (deref h1 l) "target" = get (deref h l) "target").
  { unfold get, h1. rewrite lookup_write_ne; [done|by right]. }
  rewrite Hk1, Hf1.
  destruct (find_node _ ns (get (deref h l) "target") h) as [t|] eqn:Ht; cycle 1.
  { exists h1. split; [done|]. right.
    exists l, "target". split_and!; [left|key_in|done..]. }
  set (h2 := write l "target" (VRef t) h1).
  assert (U2 : unchanged_outside (within (l :: ls) endpoint_keys) h h2).
  { eapply unchanged_trans; [apply U1|]. apply unchanged_write.
    split; [left|key_in]. }
  assert (Hf2 : ∀ key, find_node (λ d, get d "id") ns key h2
                       = find_node (λ d, get d "id") ns key h).
  { intros key. eapply find_node_frame; [apply U2|]. intros l0. not_key. }
  assert (Hd2 : ∀ l0, l0 ≠ l → deref h2 l0 = deref h l0).
  { intros l0 Hne. unfold h2, h1. rewrite !deref_write_ne; done. }
  destruct (IH h2 Hnd) as (h' & U & Hres).
  { intros l0 Hl0. unfold h2, h1. rewrite !length_write. apply Hlt. by right. }
  exists h'. split.
  { eapply unchanged_trans; [apply U2|]. eapply unchanged_weaken; [|apply U].
    intros l0 k [? ?]. split; [by right|done]. }
  destruct Hres as [[Hrun Hall]|(l' & e & Hl' & He & Hnone & Hrun)].
  - left. split; [done|]. intros l0 Hl0.
    apply elem_of_cons in Hl0 as [->|Hl0].
    + exists s, t. destruct U as [_ HU]. split_and!; [done|done|..].
      * rewrite HU by (intros [? _]; done). unfold h2.
        rewrite lookup_write_ne by (by right). by apply lookup_write_eq.
      * rewrite HU by (intros [? _]; done). unfold h2.
        apply lookup_write_eq. unfold h1. by rewrite length_write.
    + destruct (Hall l0 Hl0) as (s0 & t0 & H1 & H2 & H3 & H4).
      assert (l0 ≠ l) by (intros ->; done).
      exists s0, t0. rewrite Hd2, Hf2 in H1, H2 by done. done.
  - right. assert (l' ≠ l) by (intros ->; done).
    exists l', e. rewrite Hd2, Hf2 in Hnone by done. rewrite Hd2 in Hrun by done.
    split_and!; [by right|done..].
Qed.

(** ** The previous endpoints *)

Lemma findM_same_id link e ns h n :
  get (deref h link) e = VRef n →
  findM (same_id link e) ns h
  = inr (List.find
           (λ m, strict_equals (get (deref h m) "id") (get (deref h n) "id"))
           ns).
Proof.
  intros He. induction ns as [|m ns IH]; simpl; [done|].
  unfold same_id at 1. rewrite He. simpl.
  destruct (strict_equals _ _); done.
Qed.

Lemma previous_resolved current link e h n :
  get (deref h link) e = VRef n →
  previous current link e h
  = inr (previous_node current (get (deref h n) "id") h).
Proof.
  intros He. unfold previous, previous_node.
  destruct current as [ns|]; [|done].
  rewrite (findM_same_id _ _ _ _ _ He). by destruct (List.find _ ns).
Qed.

Lemma previous_node_frame (T : loc → string → Prop) current id h h' :
  unchanged_outside T h h' → (∀ l, ¬ T l "id") →
  previous_node current id h' = previous_node current id h.
Proof.
  intros [_ H] HT. unfold previous_node. destruct current as [ns|]; [|done].
  assert (Hf : List.find (λ n, strict_equals (get (deref h' n) "id") id) ns
               = List.find (λ n, strict_equals (get (deref h n) "id") id) ns).
  { induction ns as [|n ns IH]; simpl; [done|].
    unfold get at 1 3. rewrite (H n "id") by apply HT. by rewrite IH. }
  by rewrite Hf.
Qed.

Lemma get_frame (T : loc → string → Prop) h h' l k :
  unchanged_outside T h h' → ¬ T l k →
  get (deref h' l) k = get (deref h l) k.
Proof. intros [_ H] HT. unfold get. by rewrite H. Qed.

(** On links whose endpoints are references the last loop of the effect
    never throws, and it stores the previous nodes of the two endpoints. *)
Lemma set_previous_spec current ls h :
  NoDup ls → (∀ l, l ∈ ls → l < length h) →
  (∀ l, l ∈ ls → ∃ s t,
     get (deref h l) "source" = VRef s ∧ get (deref h l) "target" = VRef t) →
  ∃ h', iterM (set_previous current) ls h = (h', inr tt) ∧
    unchanged_outside (within ls previous_keys) h h' ∧
    ∀ l s t, l ∈ ls →
      get (deref h l) "source" = VRef s → get (deref h l) "target" = VRef t →
      deref h' l !! "previousSource"
      = Some (previous_node current (get (deref h s) "id") h) ∧
      deref h' l !! "previousTarget"
      = Some (previous_node current (get (deref h t) "id") h).
Proof.
  revert h. induction ls as [|l ls IH]; intros h Hnd Hlt Hres.
  { exists h. split_and!; [done|apply unchanged_refl|].
    intros l s t Hl. by apply elem_of_nil in Hl. }
  apply NoDup_cons in Hnd as [Hl Hnd].
  assert (Hlh : l < length h) by (apply Hlt; left).
  destruct (Hres l) as (s & t & Hs & Ht); [left|].
  set (vs := previous_node current (get (deref h s) "id") h).
  set (h1 := write l "previousSource" vs h).
  assert (U1 : unchanged_outside (within (l :: ls) previous_keys) h h1).
  { apply unchanged_write. split; [left|key_in]. }
  set (vt := previous_node current (get (deref h1 t) "id") h1).
  set (h2 := write l "previousTarget" vt h1).
  assert (U12 : unchanged_outside (within (l :: ls) previous_keys) h1 h2).
  { apply unchanged_write. split; [left|key_in]. }
  assert (U2 : unchanged_outside (within (l :: ls) previous_keys) h h2).
  { eapply unchanged_trans; [apply U1|apply U12]. }
  assert (Hvt : vt = previous_node current (get (deref h t) "id") h).
  { unfold vt. rewrite (get_frame _ _ _ _ _ U1) by not_key.
    eapply previous_node_frame; [apply U1|]. intros l0. not_key. }
  assert (Ht1 : get (deref h1 l) "target" = VRef t).
  { rewrite (get_frame _ _ _ _ _ U1) by not_key. done. }
  assert (Hstep : set_previous current l h = (h2, inr tt)).
  { unfold set_previous, bind, reading, assign.
    rewrite (previous_resolved _ _ _ _ _ Hs).
    rewrite (previous_resolved _ _ _ _ _ Ht1). done. }
  destruct (IH h2 Hnd) as (h' & Hrun & U & Hall).
  { intros l0 Hl0. unfold h2, h1. rewrite !length_write. apply Hlt. by right. }
  { intros l0 Hl0. destruct (Hres l0) as (s0 & t0 & ? & ?); [by right|].
    exists s0, t0. rewrite !(get_frame _ _ _ _ _ U2) by not_key. done. }
  exists h'. split_and!.
  - simpl. unfold bind at 1. rewrite Hstep. done.
  - eapply unchanged_trans; [apply U2|]. eapply unchanged_weaken; [|apply U].
    intros l0 k [? ?]. split; [by right|done].
  - intros l0 s0 t0 Hl0 Hs0 Ht0. apply elem_of_cons in Hl0 as [->|Hl0].
    + assert (s0 = s) by congruence. assert (t0 = t) by congruence. subst.
      destruct U as [_ HU]. split.
      * rewrite HU by (intros [? _]; done). unfold h2.
        rewrite lookup_write_ne by (by right). by apply lookup_write_eq.
      * rewrite HU by (intros [? _]; done). unfold h2. rewrite <- Hvt.
        apply lookup_write_eq. unfold h1. by rewrite length_write.
    + destruct (Hall l0 s0 t0 Hl0) as [H1 H2].
      { rewrite (get_frame _ _ _ _ _ U2) by not_key. done. }
      { rewrite (get_frame _ _ _ _ _ U2) by not_key. done. }
      rewrite (get_frame _ _ _ s0 "id" U2) in H1 by not_key.
      rewrite (get_frame _ _ _ t0 "id" U2) in H2 by not_key.
      rewrite (previous_node_frame _ _ _ _ _ U2) in H1 by (intros ?; not_key).
      rewrite (previous_node_frame _ _ _ _ _ U2) in H2 by (intros ?; not_key).
      done.
Qed.

(** ** One run of the effect *)

Lemma useNetwork_effect_unfold p st h :
  let h3 := place (initial_body host (copied p h) (nodes_at p h)) 0
              (nodes_at p h) (copied p h) in
  useNetwork_effect p st h
  = match force_link (Forces.link (effect_forces p))
            (nodes_at p h) (links_at p h) h3 with
    | (h4, inl e) => (h4, inl e)
    | (h4, inr _) =>
        let h5 :=
          place (settled_body host (effect_forces p)
                   (default (Defaults.iterations commonDefaultProps) (iterations p))
                   h4 (nodes_at p h) (links_at p h))
            0 (nodes_at p h) h4 in
        match iterM (set_previous (currentNodes st)) (links_at p h) h5 with
        | (h6, inl e) => (h6, inl e)
        | (h6, inr _) =>
            (h6, inr {| currentNodes := Some (nodes_at p h);
                        currentLinks := Some (links_at p h) |})
        end
    end.
Proof.
  intros h3. unfold useNetwork_effect.
  unfold bind at 1. rewrite mapM_alloc_pure.
  unfold bind at 1. rewrite mapM_alloc_pure.
  rewrite length_app, length_map.
  fold (nodes_at p h). fold (links_at p h). fold (copied p h).
  unfold bind at 1. unfold forceSimulation at 1. fold h3.
  unfold bind at 1.
  destruct (force_link _ _ _ h3) as [h4 [e|[]]]; [done|].
  unfold bind at 1. unfold tick at 1.
  unfold bind at 1.
  destruct (iterM _ _ _) as [h6 [e|[]]]; done.
Qed.

Lemma spread_empty (o : obj) : spread o ∅ = o.
Proof. unfold spread. apply (right_id_L ∅ (∪)). Qed.

Lemma length_copied p h :
  length (copied p h) = length h + length (nodes p) + length (links p).
Proof. unfold copied. rewrite !length_app, !length_map. lia. Qed.

Lemma copied_prefix p h : h `prefix_of` copied p h.
Proof. unfold copied. apply prefix_app_r. by apply prefix_app_r. Qed.

Lemma copied_node p h i node :
  nodes p !! i = Some node → deref (copied p h) (length h + i) = node.
Proof.
  intros Hi. unfold copied. rewrite deref_app_l.
  - rewrite deref_app_r, list_lookup_fmap, Hi. simpl. apply spread_empty.
  - rewrite length_app, length_map. apply lookup_lt_Some in Hi. lia.
Qed.

Lemma copied_link p h j link :
  links p !! j = Some link →
  deref (copied p h) (length h + length (nodes p) + j) = link_copy link.
Proof.
  intros Hj. unfold copied.
  replace (length h + length (nodes p))
    with (length (h ++ map (λ node, spread node ∅) (nodes p)))
    by (by rewrite length_app, length_map).
  by rewrite deref_app_r, list_lookup_fmap, Hj.
Qed.

Lemma elem_of_nodes_at p h l :
  l ∈ nodes_at p h ↔ ∃ i node, l = length h + i ∧ nodes p !! i = Some node.
Proof.
  unfold nodes_at. rewrite elem_of_seq. split.
  - intros [H1 H2]. destruct (lookup_lt_is_Some_2 (nodes p) (l - length h))
      as [node Hn]; [lia|].
    exists (l - length h), node. split; [lia|done].
  - intros (i & node & -> & Hi). apply lookup_lt_Some in Hi. lia.
Qed.

Lemma elem_of_links_at p h l :
  l ∈ links_at p h ↔
  ∃ j link, l = length h + length (nodes p) + j ∧ links p !! j = Some link.
Proof.
  unfold links_at. rewrite elem_of_seq. split.
  - intros [H1 H2].
    destruct (lookup_lt_is_Some_2 (links p) (l - (length h + length (nodes p))))
      as [link Hl]; [lia|].
    exists (l - (length h + length (nodes p))), link. split; [lia|done].
  - intros (j & link & -> & Hj). apply lookup_lt_Some in Hj. lia.
Qed.

Lemma nodes_links_disjoint p h l :
  l ∈ nodes_at p h → l ∈ links_at p h → False.
Proof. unfold nodes_at, links_at. rewrite !elem_of_seq. lia. Qed.

(** The copy of a link has the properties of the link, and an [id] of
    its own only when the link has none. *)
Lemma link_copy_lookup link k :
  k ≠ "id" → link_copy link !! k = link !! k.
Proof.
  intros Hk. unfold link_copy, spread. rewrite lookup_union.
  rewrite lookup_singleton_ne by done. by destruct (link !! k).
Qed.

Lemma link_copy_id link :
  link_copy link !! "id"
  = Some (match link !! "id" with
          | Some v => v
          | None => VStr (to_string (get link "source") +:+ "." +:+
                          to_string (get link "target"))
          end).
Proof.
  unfold link_copy, spread. rewrite lookup_union, lookup_singleton_eq.
  by destruct (link !! "id").
Qed.

(** Looking an id up among the node copies is looking it up among the
    nodes of the input. *)
Lemma find_node_resolvable ns key h a :
  (∀ i node, ns !! i = Some node →
     get (deref h (a + i)) "id" = get node "id") →
  resolvable ns key
  = match find_node (λ d, get d "id") (seq a (length ns)) key h with
    | Some _ => true
    | None => false
    end.
Proof.
  revert a. induction ns as [|node ns IH]; intros a Hids; [done|].
  simpl. unfold find_node. simpl.
  specialize (Hids 0 node eq_refl) as H0. rewrite Nat.add_0_r in H0.
  rewrite H0. destruct (strict_equals (get node "id") key); [done|].
  simpl. apply IH. intros i n Hi.
  replace (S a + i) with (a + S i) by lia. by apply Hids.
Qed.

Lemma find_node_equals ns key h n :
  find_node (λ d, get d "id") ns key h = Some n →
  strict_equals (get (deref h n) "id") key = true.
Proof. unfold find_node. intros Hf. by apply find_some in Hf as [_ ?]. Qed.

Lemma not_touched_id p h l : ¬ run_touched p h l "id".
Proof. intros [W|W]; revert W; not_key. Qed.

(** A run either stops on a link that names an id no node has, or goes
    through: every link is then attached to the node copies with the ids
    it names, and linked to the nodes the state cells held. *)
Lemma effect_spec p st h :
  ∃ h', unchanged_outside (run_touched p h) (copied p h) h' ∧
    ((dangling p = true ∧
      ∃ id, useNetwork_effect p st h = (h', inl (DanglingReferenceError id))) ∨
     (dangling p = false ∧
      useNetwork_effect p st h
      = (h', inr {| currentNodes := Some (nodes_at p h);
                    currentLinks := Some (links_at p h) |}) ∧
      ∀ l, l ∈ links_at p h → ∃ s t,
        s ∈ nodes_at p h ∧ t ∈ nodes_at p h ∧
        deref h' l !! "source" = Some (VRef s) ∧
        deref h' l !! "target" = Some (VRef t) ∧
        strict_equals (get (deref h' s) "id")
          (get (deref (copied p h) l) "source") = true ∧
        strict_equals (get (deref h' t) "id")
          (get (deref (copied p h) l) "target") = true ∧
        deref h' l !! "previousSource"
        = Some (previous_node (currentNodes st) (get (deref h' s) "id") h') ∧
        deref h' l !! "previousTarget"
        = Some (previous_node (currentNodes st) (get (deref h' t) "id") h'))).
Proof.
  rewrite useNetwork_effect_unfold.
  set (h2 := copied p h). set (ns := nodes_at p h). set (ls := links_at p h).
  set (h3 := place _ 0 ns h2).
  assert (U23 : unchanged_outside (within ns body_keys) h2 h3)
    by apply place_unchanged.
  assert (W23 : unchanged_outside (run_touched p h) h2 h3).
  { eapply unchanged_weaken; [|apply U23]. intros l k W. by left. }
  assert (Hnd : NoDup ls) by apply NoDup_seq.
  assert (Hlen3 : length h3 = length h + length (nodes p) + length (links p)).
  { destruct U23 as [-> _]. apply length_copied. }
  assert (Hlt : ∀ l, l ∈ ls → l < length h3).
  { intros l Hl. apply elem_of_seq in Hl. lia. }
  assert (Hres3 : ∀ key, resolvable (nodes p) key
            = match find_node (λ d, get d "id") ns key h3 with
              | Some _ => true
              | None => false
              end).
  { intros key. apply find_node_resolvable. intros i node Hi.
    rewrite (get_frame _ _ _ _ _ W23) by apply not_touched_id.
    unfold h2. by rewrite (copied_node _ _ _ _ Hi). }
  assert (Hends : ∀ j link, links p !! j = Some link →
            get (deref h3 (length h + length (nodes p) + j)) "source"
            = get link "source" ∧
            get (deref h3 (length h + length (nodes p) + j)) "target"
            = get link "target").
  { intros j link Hj. rewrite !(get_frame _ _ _ _ _ U23) by not_key.
    unfold h2. rewrite (copied_link _ _ _ _ Hj). unfold get.
    by rewrite !link_copy_lookup. }
  destruct (force_link_spec (Forces.link (effect_forces p)) ns ls h3
              eq_refl Hnd Hlt)
    as (h4 & U34 & [[Hrun Hall]|(l & e & Hl & He & Hnone & Hrun)]).
  - (* every link is attached *)
    assert (W24 : unchanged_outside (run_touched p h) h2 h4).
    { eapply unchanged_trans; [apply W23|].
      eapply unchanged_weaken; [|apply U34].
      intros l k [? ?]. right. split; [done|]. apply elem_of_app. by left. }
    rewrite Hrun. simpl. set (h5 := place _ 0 ns h4).
    assert (U45 : unchanged_outside (within ns body_keys) h4 h5)
      by apply place_unchanged.
    assert (W25 : unchanged_outside (run_touched p h) h2 h5).
    { eapply unchanged_trans; [apply W24|].
      eapply unchanged_weaken; [|apply U45]. intros l k W. by left. }
    assert (Hres5 : ∀ l s t,
              deref h4 l !! "source" = Some (VRef s) →
              deref h4 l !! "target" = Some (VRef t) →
              get (deref h5 l) "source" = VRef s ∧
              get (deref h5 l) "target" = VRef t).
    { intros l s t H3 H4. rewrite !(get_frame _ _ _ _ _ U45) by not_key.
      unfold get. by rewrite H3, H4. }
    destruct (set_previous_spec (currentNodes st) ls h5 Hnd)
      as (h6 & Hrun6 & U56 & Hprev).
    { intros l Hl. destruct U45 as [-> _]. destruct U34 as [-> _]. by apply Hlt. }
    { intros l Hl. destruct (Hall l Hl) as (s & t & _ & _ & H3 & H4).
      exists s, t. by apply Hres5. }
    rewrite Hrun6.
    assert (W26 : unchanged_outside (run_touched p h) h2 h6).
    { eapply unchanged_trans; [apply W25|].
      eapply unchanged_weaken; [|apply U56].
      intros l k [? ?]. right. split; [done|]. apply elem_of_app. by right. }
    exists h6. split; [done|]. right. split_and!; [|done|].
    + destruct (dangling p) eqn:Hd; [exfalso|done].
      unfold dangling in Hd. apply existsb_exists in Hd as (link & Hin & Hneg).
      apply list_elem_of_In, list_elem_of_lookup in Hin as [j Hj].
      destruct (Hall (length h + length (nodes p) + j))
        as (s & t & Hfs & Hft & _); [apply elem_of_links_at; eauto|].
      destruct (Hends j link Hj) as [Hs Ht]. rewrite Hs in Hfs. rewrite Ht in Hft.
      rewrite (Hres3 (get link "source")), Hfs in Hneg.
      rewrite (Hres3 (get link "target")), Hft in Hneg. done.
    + intros l Hl. destruct (Hall l Hl) as (s & t & Hfs & Hft & H3 & H4).
      destruct (Hres5 l s t H3 H4) as [Hs5 Ht5].
      destruct (Hprev l s t Hl Hs5 Ht5) as [Hps Hpt].
      assert (Hid6 : ∀ n hx, unchanged_outside (run_touched p h) h2 hx →
                get (deref hx n) "id" = get (deref h2 n) "id").
      { intros n hx U. apply (get_frame _ _ _ _ _ U), not_touched_id. }
      exists s, t. split_and!.
      * eapply find_node_in, Hfs.
      * eapply find_node_in, Hft.
      * destruct U56 as [_ ->]; [|not_key]. destruct U45 as [_ ->]; [done|not_key].
      * destruct U56 as [_ ->]; [|not_key]. destruct U45 as [_ ->]; [done|not_key].
      * apply find_node_equals in Hfs.
        rewrite (Hid6 s h6 W26), <- (Hid6 s h3 W23).
        rewrite <- (get_frame _ _ _ l "source" U23) by not_key. done.
      * apply find_node_equals in Hft.
        rewrite (Hid6 t h6 W26), <- (Hid6 t h3 W23).
        rewrite <- (get_frame _ _ _ l "target" U23) by not_key. done.
      * rewrite Hps. f_equal.
        rewrite (previous_node_frame _ _ _ _ _ U56) by (intros ?; not_key).
        by rewrite (get_frame _ _ _ s "id" U56) by not_key.
      * rewrite Hpt. f_equal.
        rewrite (previous_node_frame _ _ _ _ _ U56) by (intros ?; not_key).
        by rewrite (get_frame _ _ _ t "id" U56) by not_key.
  - (* a link names an id that no node has *)
    exists h4. split.
    { eapply unchanged_trans; [apply W23|].
      eapply unchanged_weaken; [|apply U34].
      intros l0 k [? ?]. right. split; [done|]. apply elem_of_app. by left. }
    left. rewrite Hrun. split; [|eauto].
    apply elem_of_links_at in Hl as (j & link & -> & Hj).
    destruct (Hends j link Hj) as [Hs Ht].
    unfold dangling. apply existsb_exists. exists link. split.
    { apply list_elem_of_In. eapply list_elem_of_lookup_2, Hj. }
    unfold endpoint_keys in He.
    apply elem_of_cons in He as [->|He];
      [|apply elem_of_cons in He as [->|He]; [|by apply elem_of_nil in He]].
    + rewrite Hs in Hnone. by rewrite (Hres3 (get link "source")), Hnone.
    + rewrite Ht in Hnone. rewrite (Hres3 (get link "target")), Hnone.
      apply orb_true_r.
Qed.

(** ** The rendering *)

Lemma enhancedNodes_eq p st h :
  enhancedNodes p st h
  = (h ++ styled_nodes p st h,
     inr ((λ ns, seq (length h) (length ns)) <$> currentNodes st)).
Proof.
  unfold enhancedNodes, styled_nodes.
  destruct (currentNodes st) as [ns|]; [|unfold ret; by rewrite app_nil_r].
  unfold bind at 1. by rewrite mapM_alloc.
Qed.

Lemma enhancedLinks_eq p st h :
  enhancedLinks p st h
  = (h ++ styled_links p st h,
     inr ((λ ls, seq (length h) (length ls)) <$> currentLinks st)).
Proof.
  unfold enhancedLinks, styled_links.
  destruct (currentLinks st) as [ls|]; [|unfold ret; by rewrite app_nil_r].
  unfold bind at 1. by rewrite mapM_alloc.
Qed.

Lemma useNetwork_unfold p st h :
  let h1 := h ++ styled_nodes p st h in
  useNetwork p st h
  = (h1 ++ styled_links p st h1,
     inr ((λ ns, seq (length h) (length ns)) <$> currentNodes st,
          (λ ls, seq (length h1) (length ls)) <$> currentLinks st)).
Proof.
  intros h1. unfold useNetwork.
  unfold bind at 1. rewrite enhancedNodes_eq.
  unfold bind at 1. rewrite enhancedLinks_eq. done.
Qed.

(** The rendering only allocates. *)
Lemma useNetwork_prefix p st h : h `prefix_of` (useNetwork p st h).1.
Proof.
  rewrite useNetwork_unfold. simpl. apply prefix_app_r. by apply prefix_app_r.
Qed.

(** The [i]-th record of an allocation is what [g] makes of the [i]-th
    element in a store between the first and the last. *)
Lemma allocs_deref {A} (g : A → heap → obj) xs h k i x :
  xs !! i = Some x →
  ∃ hi, h `prefix_of` hi ∧ hi `prefix_of` (h ++ allocs g xs h) ++ k ∧
    deref ((h ++ allocs g xs h) ++ k) (length h + i) = g x hi.
Proof.
  intros Hi. exists (h ++ take i (allocs g xs h)). split_and!.
  - by apply prefix_app_r.
  - apply prefix_app_r, prefix_app, prefix_take.
  - rewrite deref_app_l.
    + by rewrite deref_app_r, (allocs_lookup _ _ _ _ _ Hi).
    + rewrite length_app, length_allocs. apply lookup_lt_Some in Hi. lia.
Qed.

Lemma styled_node_at p st h ns i node :
  currentNodes st = Some ns → ns !! i = Some node →
  ∃ hi, h `prefix_of` hi ∧ hi `prefix_of` (useNetwork p st h).1 ∧
    deref (useNetwork p st h).1 (length h + i) = styled_node p node hi.
Proof.
  intros Hns Hi. rewrite useNetwork_unfold. simpl.
  assert (Hsn : styled_nodes p st h = allocs (styled_node p) ns h)
    by (unfold styled_nodes; by rewrite Hns).
  rewrite Hsn. by apply allocs_deref.
Qed.

Lemma styled_link_at p st h ls j link :
  currentLinks st = Some ls → ls !! j = Some link →
  ∃ hj, h `prefix_of` hj ∧ hj `prefix_of` (useNetwork p st h).1 ∧
    deref (useNetwork p st h).1 (length (h ++ styled_nodes p st h) + j)
    = styled_link p link hj.
Proof.
  intros Hls Hj. rewrite useNetwork_unfold. simpl.
  unfold styled_links. rewrite Hls.
  destruct (allocs_deref (styled_link p) ls (h ++ styled_nodes p st h) [] j link Hj)
    as (hj & H1 & H2 & H3).
  rewrite app_nil_r in H2, H3. exists hj. split_and!; [|done..].
  etrans; [|apply H1]. by apply prefix_app_r.
Qed.

Lemma styled_node_lookup p node h k :
  k ∉ node_style_keys → styled_node p node h !! k = deref h node !! k.
Proof.
  unfold node_style_keys. rewrite !not_elem_of_cons. intros (? & ? & ? & _).
  unfold styled_node. rewrite !lookup_insert_ne by done. by rewrite spread_empty.
Qed.

Lemma styled_link_lookup p link h k :
  k ∉ link_style_keys → styled_link p link h !! k = deref h link !! k.
Proof.
  unfold link_style_keys. rewrite !not_elem_of_cons. intros (? & ? & _).
  unfold styled_link. rewrite !lookup_insert_ne by done. by rewrite spread_empty.
Qed.

(** The styled nodes, one for each node of the state cell and in the same
    order: new records, each made from the node in a store that extends
    the one the rendering started from. *)
Lemma useNetwork_nodes p st h ns :
  currentNodes st = Some ns →
  ∃ out ol, (useNetwork p st h).2 = inr (Some out, ol) ∧
    Forall2 (λ node l,
               length h ≤ l ∧
               ∃ hi, h `prefix_of` hi ∧ hi `prefix_of` (useNetwork p st h).1 ∧
                 deref (useNetwork p st h).1 l = styled_node p node hi)
            ns out.
Proof.
  intros Hns. eexists _, _. split.
  { rewrite useNetwork_unfold. simpl. rewrite Hns. reflexivity. }
  apply Forall2_same_length_lookup_2; [by rewrite length_seq|].
  intros i node l Hi Hl. apply lookup_seq in Hl as [-> _].
  split; [lia|]. by apply styled_node_at with ns.
Qed.

Lemma useNetwork_links p st h ls :
  currentLinks st = Some ls →
  ∃ on out, (useNetwork p st h).2 = inr (on, Some out) ∧
    Forall2 (λ link l,
               length h ≤ l ∧
               ∃ hj, h `prefix_of` hj ∧ hj `prefix_of` (useNetwork p st h).1 ∧
                 deref (useNetwork p st h).1 l = styled_link p link hj)
            ls out.
Proof.
  intros Hls. eexists _, _. split.
  { rewrite useNetwork_unfold. simpl. rewrite Hls. reflexivity. }
  apply Forall2_same_length_lookup_2; [by rewrite length_seq|].
  intros j link l Hj Hl. apply lookup_seq in Hl as [-> _].
  split; [rewrite length_app; lia|]. by apply styled_link_at with ls.
Qed.

Lemma allocated_nodes st h ns l :
  allocated st h = true → currentNodes st = Some ns → l ∈ ns → l < length h.
Proof.
  unfold allocated. intros [Ha _]%andb_prop Hns Hl. rewrite Hns in Ha.
  simpl in Ha. rewrite forallb_forall in Ha.
  apply Nat.ltb_lt, Ha. by apply list_elem_of_In.
Qed.

Lemma allocated_links st h ls l :
  allocated st h = true → currentLinks st = Some ls → l ∈ ls → l < length h.
Proof.
  unfold allocated. intros [_ Ha]%andb_prop Hls Hl. rewrite Hls in Ha.
  simpl in Ha. rewrite forallb_forall in Ha.
  apply Nat.ltb_lt, Ha. by apply list_elem_of_In.
Qed.

Lemma run_touched_new p h l k : run_touched p h l k → length h ≤ l.
Proof.
  intros [[W _]|[W _]]; revert W; unfold nodes_at, links_at;
    rewrite elem_of_seq; lia.
Qed.

(** What a run that went through leaves. *)
Lemma effect_success p st h h1 st1 :
  useNetwork_effect p st h = (h1, inr st1) →
  st1 = {| currentNodes := Some (nodes_at p h);
           currentLinks := Some (links_at p h) |} ∧
  dangling p = false ∧
  unchanged_outside (run_touched p h) (copied p h) h1 ∧
  ∀ l, l ∈ links_at p h → ∃ s t,
    s ∈ nodes_at p h ∧ t ∈ nodes_at p h ∧
    deref h1 l !! "source" = Some (VRef s) ∧
    deref h1 l !! "target" = Some (VRef t) ∧
    strict_equals (get (deref h1 s) "id")
      (get (deref (copied p h) l) "source") = true ∧
    strict_equals (get (deref h1 t) "id")
      (get (deref (copied p h) l) "target") = true ∧
    deref h1 l !! "previousSource"
    = Some (previous_node (currentNodes st) (get (deref h1 s) "id") h1) ∧
    deref h1 l !! "previousTarget"
    = Some (previous_node (currentNodes st) (get (deref h1 t) "id") h1).
Proof.
  intros Hrun.
  destruct (effect_spec p st h) as (h' & U & [[_ [id Hf]]|(Hd & Hs & Hall)]).
  - rewrite Hf in Hrun. discriminate.
  - rewrite Hs in Hrun. inversion Hrun; subst. done.
Qed.

Lemma length_effect p st h h1 r :
  useNetwork_effect p st h = (h1, r) →
  length h1 = length h + length (nodes p) + length (links p).
Proof.
  intros Hrun.
  destruct (effect_spec p st h) as (h' & [Hlen _] & [[_ [id Hf]]|(_ & Hs & _)]).
  - rewrite Hf in Hrun. inversion Hrun; subst. by rewrite Hlen, length_copied.
  - rewrite Hs in Hrun. inversion Hrun; subst. by rewrite Hlen, length_copied.
Qed.

Lemma effect_prefix p st h h1 r :
  useNetwork_effect p st h = (h1, r) → h `prefix_of` h1.
Proof.
  intros Hrun.
  assert (∃ h', unchanged_outside (run_touched p h) (copied p h) h' ∧ h1 = h')
    as (h' & U & ->).
  { destruct (effect_spec p st h) as (h' & U & [[_ [id Hf]]|(_ & Hs & _)]);
      exists h'; (split; [done|]); congruence. }
  eapply unchanged_prefix; [apply copied_prefix|apply U|apply run_touched_new].
Qed.

(** The addresses in the state cells stay allocated. *)
Lemma allocated_initial h : allocated initialState h = true.
Proof. done. Qed.

Lemma allocated_prefix st (h h' : heap) :
  h `prefix_of` h' → allocated st h = true → allocated st h' = true.
Proof.
  intros Hpre%prefix_length. unfold allocated.
  rewrite !andb_true_iff, !forallb_forall.
  intros [H1 H2]. split; intros l Hl; apply Nat.ltb_lt.
  - apply H1, Nat.ltb_lt in Hl. lia.
  - apply H2, Nat.ltb_lt in Hl. lia.
Qed.

Lemma update_allocated p st h :
  allocated st h = true → allocated (update p st h).2 (update p st h).1 = true.
Proof.
  intros Ha. unfold update.
  destruct (useNetwork_effect p st h) as [h1 [e|st1]] eqn:Hrun; simpl.
  - eapply allocated_prefix; [|done]. eapply effect_prefix, Hrun.
  - pose proof (length_effect _ _ _ _ _ Hrun) as Hlen.
    apply effect_success in Hrun as (-> & _). unfold allocated. simpl.
    rewrite andb_true_iff, !forallb_forall.
    split; intros l Hl%list_elem_of_In; apply Nat.ltb_lt;
      unfold nodes_at, links_at in Hl; apply elem_of_seq in Hl; lia.
Qed.

Lemma previous_node_ext current id h h' :
  (∀ ns n, current = Some ns → n ∈ ns → deref h' n = deref h n) →
  previous_node current id h' = previous_node current id h.
Proof.
  intros H. unfold previous_node. destruct current as [ns|]; [|done].
  specialize (H ns).
  assert (Hf : List.find (λ n, strict_equals (get (deref h' n) "id") id) ns
               = List.find (λ n, strict_equals (get (deref h n) "id") id) ns).
  { induction ns as [|n ns IH]; simpl; [done|].
    rewrite H by (done || left). rewrite IH; [done|].
    intros m _ Hm. apply H; [done|by right]. }
  by rewrite Hf.
Qed.

Lemma default_to_defined d v : v ≠ VUndefined → default_to d v = v.
Proof. by destruct v. Qed.

Lemma styled_node_color p node h :
  get (styled_node p node h) "color"
  = useNodeColor
      (default_to (Defaults.nodeColor commonDefaultProps) (nodeColor p))
      h (VRef node).
Proof.
  unfold get, styled_node.
  rewrite !lookup_insert_ne by done. by rewrite lookup_insert_eq.
Qed.

Lemma styled_node_borderWidth p node h :
  get (styled_node p node h) "borderWidth"
  = default_to (Defaults.nodeBorderWidth commonDefaultProps) (nodeBorderWidth p).
Proof.
  unfold get, styled_node.
  rewrite lookup_insert_ne by done. by rewrite lookup_insert_eq.
Qed.

(** * The claims *)





(** C4. Before the first run the hook returns [null] for the nodes and
    for the links, and allocates nothing. This is not the empty array:
    once a run on an input without nodes or links is through, the hook
    returns two empty arrays. *)
Theorem not_yet_computed_is_null p h :
  useNetwork p initialState h = (h, inr (None, None)) ∧
  (nodes p = [] → links p = [] →
   ∃ h1 st1, useNetwork_effect p initialState h = (h1, inr st1) ∧
     (useNetwork p st1 h1).2 = inr (Some [], Some [])) ∧
  (None : option (list loc)) ≠ Some [].
Proof.
  split_and!.
  - rewrite useNetwork_unfold. simpl. by rewrite !app_nil_r.
  - intros Hn Hl.
    destruct (effect_spec p initialState h)
      as (h1 & _ & [[Hd _]|(_ & Hs & _)]).
    + unfold dangling in Hd. rewrite Hl in Hd. discriminate.
    + eexists _, _. split; [apply Hs|]. rewrite useNetwork_unfold. simpl.
      unfold nodes_at, links_at. by rewrite Hn, Hl.
  - discriminate.
Qed.

(** C5. In the links the hook returns after a run, [previousSource] (and
    likewise [previousTarget]) is the node held by the state cell when the
    run started whose id is the id of the node the link's [source] was
    resolved to: the first such node, and [undefined] when there is none.
    On the first run, when the state cell holds [null], both are
    [undefined]. *)
Theorem previous_endpoints p p' st h h1 st1 :
  allocated st h = true →
  useNetwork_effect p st h = (h1, inr st1) →
  ∃ on out, (useNetwork p' st1 h1).2 = inr (on, Some out) ∧
    length out = length (links p) ∧
    ∀ l, l ∈ out → ∃ s t,
      get (deref (useNetwork p' st1 h1).1 l) "source" = VRef s ∧
      get (deref (useNetwork p' st1 h1).1 l) "target" = VRef t ∧
      get (deref (useNetwork p' st1 h1).1 l) "previousSource"
      = previous_node (currentNodes st)
          (get (deref (useNetwork p' st1 h1).1 s) "id") (useNetwork p' st1 h1).1 ∧
      get (deref (useNetwork p' st1 h1).1 l) "previousTarget"
      = previous_node (currentNodes st)
          (get (deref (useNetwork p' st1 h1).1 t) "id") (useNetwork p' st1 h1).1 ∧
      (currentNodes st = None →
       get (deref (useNetwork p' st1 h1).1 l) "previousSource" = VUndefined ∧
       get (deref (useNetwork p' st1 h1).1 l) "previousTarget" = VUndefined).
Proof.
  intros Ha Hrun.
  pose proof (length_effect _ _ _ _ _ Hrun) as Hlen.
  pose proof (effect_prefix _ _ _ _ _ Hrun) as Hpre.
  destruct (effect_success _ _ _ _ _ Hrun) as (-> & _ & U & Hall).
  set (st1 := {| currentNodes := _; currentLinks := _ |}).
  destruct (useNetwork_links p' st1 h1 (links_at p h) eq_refl)
    as (on & out & Hout & HF).
  pose proof (useNetwork_prefix p' st1 h1) as Hpre2.
  set (h2 := (useNetwork p' st1 h1).1) in *.
  exists on, out. split; [done|]. split.
  { rewrite <- (Forall2_length _ _ _ HF). unfold links_at. apply length_seq. }
  intros l Hl. apply list_elem_of_lookup in Hl as [j Hj].
  destruct (Forall2_lookup_r _ _ _ _ _ HF Hj)
    as (link & Hlink & _ & hj & Hp1 & Hp2 & Hd).
  apply list_elem_of_lookup_2 in Hlink.
  assert (Hlt : link < length h1).
  { unfold links_at in Hlink. apply elem_of_seq in Hlink. lia. }
  assert (Hk : ∀ k, k ∉ link_style_keys →
            get (deref h2 l) k = get (deref h1 link) k).
  { intros k Hk. unfold get.
    by rewrite Hd, styled_link_lookup, (deref_prefix h1 hj) by done. }
  destruct (Hall link Hlink) as (s & t & Hs & Ht & H3 & H4 & _ & _ & Hps & Hpt).
  assert (Hnode : ∀ n, n ∈ nodes_at p h → deref h2 n = deref h1 n).
  { intros n Hn. apply deref_prefix; [done|].
    unfold nodes_at in Hn. apply elem_of_seq in Hn. lia. }
  assert (Hprev : ∀ id, previous_node (currentNodes st) id h2
                        = previous_node (currentNodes st) id h1).
  { intros id. apply previous_node_ext. intros ns n Hns Hn.
    apply deref_prefix; [done|].
    pose proof (allocated_nodes _ _ _ _ Ha Hns Hn).
    apply prefix_length in Hpre. lia. }
  assert (Hkey : ∀ k, k ∈ endpoint_keys ++ previous_keys → k ∉ link_style_keys).
  { intros k Hin Hin'. revert Hin Hin'.
    unfold endpoint_keys, previous_keys, link_style_keys. simpl.
    rewrite !elem_of_cons, !elem_of_nil.
    intros [->|[->|[->|[->|[]]]]] [?|[?|[]]]; discriminate. }
  assert (Hvs : get (deref h2 l) "previousSource"
                = previous_node (currentNodes st) (get (deref h2 s) "id") h2).
  { rewrite Hk, Hprev, (Hnode s) by (done || apply Hkey; key_in).
    unfold get at 1. by rewrite Hps. }
  assert (Hvt : get (deref h2 l) "previousTarget"
                = previous_node (currentNodes st) (get (deref h2 t) "id") h2).
  { rewrite Hk, Hprev, (Hnode t) by (done || apply Hkey; key_in).
    unfold get at 1. by rewrite Hpt. }
  exists s, t. split_and!; [..|done|done|].
  - rewrite Hk by (apply Hkey; key_in). unfold get. by rewrite H3.
  - rewrite Hk by (apply Hkey; key_in). unfold get. by rewrite H4.
  - intros Hnone. rewrite Hvs, Hvt, Hnone. done.
Qed.

(** C10. The [id] of a link the hook returns is the [id] of the input
    link when it has one, whatever its value; only when the input link has
    no [id] of its own is it the source id and the target id joined by a
    dot. *)
Theorem link_id_derivation p p' st h h1 st1 :
  useNetwork_effect p st h = (h1, inr st1) →
  ∃ on out, (useNetwork p' st1 h1).2 = inr (on, Some out) ∧
    Forall2 (λ link l,
               deref (useNetwork p' st1 h1).1 l !! "id"
               = Some (match link !! "id" with
                       | Some v => v
                       | None =>
                           VStr (to_string (get link "source") +:+ "." +:+
                                 to_string (get link "target"))
                       end))
            (links p) out.
Proof.
  intros Hrun.
  pose proof (length_effect _ _ _ _ _ Hrun) as Hlen.
  destruct (effect_success _ _ _ _ _ Hrun) as (-> & _ & U & _).
  set (st1 := {| currentNodes := _; currentLinks := _ |}).
  destruct (useNetwork_links p' st1 h1 (links_at p h) eq_refl)
    as (on & out & Hout & HF).
  exists on, out. split; [done|].
  apply Forall2_same_length_lookup_2.
  { rewrite <- (Forall2_length _ _ _ HF). unfold links_at. by rewrite length_seq. }
  intros j link l Hj Hl.
  destruct (Forall2_lookup_r _ _ _ _ _ HF Hl)
    as (x & Hx & _ & hj & Hp1 & Hp2 & Hd).
  apply lookup_seq in Hx as [-> _].
  rewrite Hd, styled_link_lookup by key_out.
  rewrite (deref_prefix h1 hj) by (done || apply lookup_lt_Some in Hj; lia).
  destruct U as [_ ->]; [|apply not_touched_id].
  rewrite (copied_link _ _ _ _ Hj). apply link_copy_id.
Qed.

(** C6. A [nodeColor] that is not a function is turned into the function
    that returns it, and is the colour of every node the hook returns,
    whatever the node holds; a [nodeColor] that is a function gives every
    node the value of that function at the node, as it is in the store
    when the function is called. *)
Theorem node_color_accessor p st h ns :
  allocated st h = true →
  currentNodes st = Some ns →
  nodeColor p ≠ VUndefined →
  (is_function (nodeColor p) = false →
   useNodeColor (nodeColor p) = (λ _ _, nodeColor p)) ∧
  ∃ out ol, (useNetwork p st h).2 = inr (Some out, ol) ∧
    Forall2 (λ node l,
               (is_function (nodeColor p) = false →
                get (deref (useNetwork p st h).1 l) "color" = nodeColor p) ∧
               (∀ f, nodeColor p = VFun f →
                ∃ hi, h `prefix_of` hi ∧ hi `prefix_of` (useNetwork p st h).1 ∧
                  deref hi node = deref h node ∧
                  get (deref (useNetwork p st h).1 l) "color"
                  = call host f hi (VRef node)))
            ns out.
Proof.
  intros Ha Hns Hdef. split.
  { intros Hc. unfold useNodeColor. by rewrite Hc. }
  destruct (useNetwork_nodes p st h ns Hns) as (out & ol & Hout & HF).
  exists out, ol. split; [done|].
  apply Forall2_same_length_lookup_2; [by eapply Forall2_length|].
  intros i node l Hi Hl.
  destruct (Forall2_lookup_lr _ _ _ _ _ _ HF Hi Hl) as (_ & hi & Hp1 & Hp2 & Hd).
  rewrite Hd, styled_node_color, default_to_defined by done. split.
  - intros Hc. unfold useNodeColor. by rewrite Hc.
  - intros f Hf. exists hi. split_and!; [done|done|..].
    + apply deref_prefix; [done|].
      eapply allocated_nodes; [done..|]. eapply list_elem_of_lookup_2, Hi.
    + by rewrite Hf.
Qed.

(** C7, amended. [nodeBorderWidth] is not an accessor: the [borderWidth]
    of every node the hook returns is the value given as [nodeBorderWidth]
    itself (the default when none is given), whatever the node; a function
    is stored as it is and is not called. *)
Theorem node_border_width_is_stored p st h ns :
  currentNodes st = Some ns →
  ∃ out ol, (useNetwork p st h).2 = inr (Some out, ol) ∧
    Forall2 (λ (_ : loc) l,
               get (deref (useNetwork p st h).1 l) "borderWidth"
               = default_to (Defaults.nodeBorderWidth commonDefaultProps)
                   (nodeBorderWidth p))
            ns out.
Proof.
  intros Hns.
  destruct (useNetwork_nodes p st h ns Hns) as (out & ol & Hout & HF).
  exists out, ol. split; [done|].
  eapply Forall2_impl; [apply HF|].
  intros node l (_ & hi & _ & _ & Hd). simpl.
  by rewrite Hd, styled_node_borderWidth.
Qed.

(** C8. The rendering writes into no object of the store: the nodes and
    links of the state cells are after it what they were before it. The
    styled nodes are new records, with the [x] and [y] of the node they
    come from and all its other properties except the three style ones;
    the styled links are new records with the properties of the link they
    come from except the two style ones. *)
Theorem styling_keeps_the_layout p st h :
  allocated st h = true →
  h `prefix_of` (useNetwork p st h).1 ∧
  (∀ ns, currentNodes st = Some ns →
     ∃ out ol, (useNetwork p st h).2 = inr (Some out, ol) ∧
       Forall2 (λ node l,
                  length h ≤ l ∧
                  get (deref (useNetwork p st h).1 l) "x" = get (deref h node) "x" ∧
                  get (deref (useNetwork p st h).1 l) "y" = get (deref h node) "y" ∧
                  ∀ k, k ∉ node_style_keys →
                    deref (useNetwork p st h).1 l !! k = deref h node !! k)
               ns out) ∧
  (∀ ls, currentLinks st = Some ls →
     ∃ on out, (useNetwork p st h).2 = inr (on, Some out) ∧
       Forall2 (λ link l,
                  length h ≤ l ∧
                  ∀ k, k ∉ link_style_keys →
                    deref (useNetwork p st h).1 l !! k = deref h link !! k)
               ls out).
Proof.
  intros Ha. split_and!.
  - apply useNetwork_prefix.
  - intros ns Hns.
    destruct (useNetwork_nodes p st h ns Hns) as (out & ol & Hout & HF).
    exists out, ol. split; [done|].
    apply Forall2_same_length_lookup_2; [by eapply Forall2_length|].
    intros i node l Hi Hl.
    destruct (Forall2_lookup_lr _ _ _ _ _ _ HF Hi Hl)
      as (Hnew & hi & Hp1 & Hp2 & Hd).
    assert (Hk : ∀ k, k ∉ node_style_keys →
              deref (useNetwork p st h).1 l !! k = deref h node !! k).
    { intros k Hk. rewrite Hd, styled_node_lookup by done.
      rewrite (deref_prefix h hi); [done..|].
      eapply allocated_nodes; [done..|]. eapply list_elem_of_lookup_2, Hi. }
    split_and!; [done| | |done]; unfold get; by rewrite Hk by key_out.
  - intros ls Hls.
    destruct (useNetwork_links p st h ls Hls) as (on & out & Hout & HF).
    exists on, out. split; [done|].
    apply Forall2_same_length_lookup_2; [by eapply Forall2_length|].
    intros j link l Hj Hl.
    destruct (Forall2_lookup_lr _ _ _ _ _ _ HF Hj Hl)
      as (Hnew & hj & Hp1 & Hp2 & Hd).
    split; [done|]. intros k Hk. rewrite Hd, styled_link_lookup by done.
    rewrite (deref_prefix h hj); [done..|].
    eapply allocated_links; [done..|]. eapply list_elem_of_lookup_2, Hj.
Qed.

(** C2, amended. A [linkDistance] other than [undefined] that is neither
    a number, a function nor a string is not rejected: [computeForces]
    leaves the distance accessor of the link force undefined, without a
    default in its place, and the run is carried out as for any other
    value: it goes through when no link dangles and fails on a dangling
    link otherwise. *)
Theorem unsupported_link_distance_runs p st h :
  linkDistance p ≠ VUndefined →
  is_function (linkDistance p) = false →
  isNumber (linkDistance p) = false →
  isString (linkDistance p) = false →
  Forces.distance (Forces.link (effect_forces p)) = None ∧
  ∃ h',
    (dangling p = false ∧
     useNetwork_effect p st h
     = (h', inr {| currentNodes := Some (nodes_at p h);
                   currentLinks := Some (links_at p h) |})) ∨
    (dangling p = true ∧
     ∃ id, useNetwork_effect p st h = (h', inl (DanglingReferenceError id))).
Proof.
  intros Hdef Hf Hn Hs. split.
  - unfold effect_forces, computeForces. simpl.
    rewrite default_to_defined by done. by rewrite Hf, Hn, Hs.
  - destruct (effect_spec p st h) as (h' & _ & [[Hd Hr]|(Hd & Hr & _)]);
      exists h'; [by right|by left].
Qed.

(** * More of the hook *)

(** ** From the input to the records returned *)

Lemma run_node_lookup p st h h1 st1 i node k :
  useNetwork_effect p st h = (h1, inr st1) →
  nodes p !! i = Some node → k ∉ body_keys →
  deref h1 (length h + i) !! k = node !! k.
Proof.
  intros Hrun Hi Hk.
  destruct (effect_success _ _ _ _ _ Hrun) as (_ & _ & [_ U] & _).
  rewrite U; [by rewrite (copied_node _ _ _ _ Hi)|].
  intros [[_ W]|[W _]]; [done|].
  unfold links_at in W. apply elem_of_seq in W.
  apply lookup_lt_Some in Hi. lia.
Qed.

Lemma run_link_lookup p st h h1 st1 j link k :
  useNetwork_effect p st h = (h1, inr st1) →
  links p !! j = Some link → k ∉ endpoint_keys ++ previous_keys →
  deref h1 (length h + length (nodes p) + j) !! k = link_copy link !! k.
Proof.
  intros Hrun Hj Hk.
  destruct (effect_success _ _ _ _ _ Hrun) as (_ & _ & [_ U] & _).
  rewrite U; [by rewrite (copied_link _ _ _ _ Hj)|].
  intros [[W _]|[_ W]]; [|done].
  unfold nodes_at in W. apply elem_of_seq in W. lia.
Qed.

(** The nodes returned after a run, one for each node of the input and
    in its order: the styled record of the copy of that node. *)
Lemma run_render_nodes p p' st h h1 st1 :
  useNetwork_effect p st h = (h1, inr st1) →
  ∃ out ol, (useNetwork p' st1 h1).2 = inr (Some out, ol) ∧
    Forall2 (λ node l,
               ∃ i hi, nodes p !! i = Some node ∧ length h1 ≤ l ∧
                 h1 `prefix_of` hi ∧ hi `prefix_of` (useNetwork p' st1 h1).1 ∧
                 deref hi (length h + i) = deref h1 (length h + i) ∧
                 deref (useNetwork p' st1 h1).1 l
                 = styled_node p' (length h + i) hi)
            (nodes p) out.
Proof.
  intros Hrun.
  pose proof (length_effect _ _ _ _ _ Hrun) as Hlen.
  destruct (effect_success _ _ _ _ _ Hrun) as (-> & _).
  set (st1 := {| currentNodes := _; currentLinks := _ |}).
  destruct (useNetwork_nodes p' st1 h1 (nodes_at p h) eq_refl)
    as (out & ol & Hout & HF).
  exists out, ol. split; [done|].
  apply Forall2_same_length_lookup_2.
  { rewrite <- (Forall2_length _ _ _ HF). unfold nodes_at. by rewrite length_seq. }
  intros i node l Hi Hl.
  destruct (Forall2_lookup_r _ _ _ _ _ HF Hl)
    as (x & Hx & Hnew & hi & Hp1 & Hp2 & Hd).
  apply lookup_seq in Hx as [-> _].
  exists i, hi. split_and!; [done..| |done].
  apply deref_prefix; [done|]. apply lookup_lt_Some in Hi. lia.
Qed.

Lemma run_render_links p p' st h h1 st1 :
  useNetwork_effect p st h = (h1, inr st1) →
  ∃ on out, (useNetwork p' st1 h1).2 = inr (on, Some out) ∧
    Forall2 (λ link l,
               ∃ j hj, links p !! j = Some link ∧ length h1 ≤ l ∧
                 h1 `prefix_of` hj ∧ hj `prefix_of` (useNetwork p' st1 h1).1 ∧
                 deref hj (length h + length (nodes p) + j)
                 = deref h1 (length h + length (nodes p) + j) ∧
                 deref (useNetwork p' st1 h1).1 l
                 = styled_link p' (length h + length (nodes p) + j) hj)
            (links p) out.
Proof.
  intros Hrun.
  pose proof (length_effect _ _ _ _ _ Hrun) as Hlen.
  destruct (effect_success _ _ _ _ _ Hrun) as (-> & _).
  set (st1 := {| currentNodes := _; currentLinks := _ |}).
  destruct (useNetwork_links p' st1 h1 (links_at p h) eq_refl)
    as (on & out & Hout & HF).
  exists on, out. split; [done|].
  apply Forall2_same_length_lookup_2.
  { rewrite <- (Forall2_length _ _ _ HF). unfold links_at. by rewrite length_seq. }
  intros j link l Hj Hl.
  destruct (Forall2_lookup_r _ _ _ _ _ HF Hl)
    as (x & Hx & Hnew & hj & Hp1 & Hp2 & Hd).
  apply lookup_seq in Hx as [-> _].
  exists j, hj. split_and!; [done..| |done].
  apply deref_prefix; [done|]. apply lookup_lt_Some in Hj. lia.
Qed.

(** X1. A run goes through exactly when no link names an id that no node
    has. It then sets the two state cells to arrays with one address for
    each node and each link of the input. When it fails it fails with a
    [DanglingReferenceError]: reading [link.source.id] and
    [link.target.id] never throws. *)
Theorem run_goes_through_iff_no_link_dangles p st h :
  ((∃ h1 st1, useNetwork_effect p st h = (h1, inr st1)) ↔ dangling p = false) ∧
  (∀ h1 st1, useNetwork_effect p st h = (h1, inr st1) →
     ∃ ns ls, currentNodes st1 = Some ns ∧ currentLinks st1 = Some ls ∧
       length ns = length (nodes p) ∧ length ls = length (links p)) ∧
  (∀ h1 e, useNetwork_effect p st h = (h1, inl e) →
     ∃ id, e = DanglingReferenceError id).
Proof.
  split_and!.
  - split.
    + intros (h1 & st1 & Hrun). by apply effect_success in Hrun as (_ & ? & _).
    + intros Hd.
      destruct (effect_spec p st h) as (h' & _ & [[Hd' _]|(_ & Hs & _)]);
        [congruence|eauto].
  - intros h1 st1 Hrun. apply effect_success in Hrun as (-> & _).
    eexists _, _. split_and!; [done..| |]; unfold nodes_at, links_at;
      by rewrite length_seq.
  - intros h1 e Hrun.
    destruct (effect_spec p st h) as (h' & _ & [[_ [id Hf]]|(_ & Hs & _)]).
    + rewrite Hf in Hrun. inversion Hrun. eauto.
    + rewrite Hs in Hrun. discriminate.
Qed.

(** X2. Whatever its outcome, a run writes into no object that was in
    the store: it only allocates, one object for each node and each link
    of the input. The nodes of the state cells, which the links of the
    next run point to, therefore keep the positions they had. *)
Theorem run_keeps_the_objects_of_the_store p st h h1 r :
  useNetwork_effect p st h = (h1, r) →
  h `prefix_of` h1 ∧
  length h1 = length h + length (nodes p) + length (links p) ∧
  (∀ l, l < length h → deref h1 l = deref h l) ∧
  (allocated st h = true →
   ∀ ns n, currentNodes st = Some ns → n ∈ ns → deref h1 n = deref h n).
Proof.
  intros Hrun.
  pose proof (effect_prefix _ _ _ _ _ Hrun) as Hpre.
  split_and!; [done|by eapply length_effect| |].
  - intros l Hl. by apply deref_prefix.
  - intros Ha ns n Hns Hn. apply deref_prefix; [done|].
    by eapply allocated_nodes.
Qed.

(** X3. The nodes returned after a run are as many as the nodes of the
    input and in the same order, and each has the properties of its input
    node, its [id] among them, except those the simulation writes and the
    three style properties. *)
Theorem returned_nodes_keep_the_input p p' st h h1 st1 :
  useNetwork_effect p st h = (h1, inr st1) →
  ∃ out ol, (useNetwork p' st1 h1).2 = inr (Some out, ol) ∧
    length out = length (nodes p) ∧
    Forall2 (λ node l,
               get (deref (useNetwork p' st1 h1).1 l) "id" = get node "id" ∧
               ∀ k, k ∉ simulation_keys ++ node_style_keys →
                 deref (useNetwork p' st1 h1).1 l !! k = node !! k)
            (nodes p) out.
Proof.
  intros Hrun.
  destruct (run_render_nodes p p' _ _ _ _ Hrun) as (out & ol & Hout & HF).
  exists out, ol. split; [done|]. split; [symmetry; by eapply Forall2_length|].
  eapply Forall2_impl; [apply HF|].
  intros node l (i & hi & Hi & _ & _ & _ & Hn & Hd). simpl.
  assert (Hk : ∀ k, k ∉ simulation_keys ++ node_style_keys →
            deref (useNetwork p' st1 h1).1 l !! k = node !! k).
  { intros k Hk. rewrite Hd, styled_node_lookup, Hn by other_keys Hk.
    eapply run_node_lookup; [done..|]. other_keys Hk. }
  split; [|done]. unfold get. rewrite Hk; [done|].
  unfold simulation_keys. key_out.
Qed.

(** X4. The links returned after a run are as many as the links of the
    input and in the same order, and each has the properties of its input
    link except [id], those the link force writes, the two previous
    endpoints and the two style properties. *)
Theorem returned_links_keep_the_input p p' st h h1 st1 :
  useNetwork_effect p st h = (h1, inr st1) →
  ∃ on out, (useNetwork p' st1 h1).2 = inr (on, Some out) ∧
    length out = length (links p) ∧
    Forall2 (λ link l,
               ∀ k, k ∉ "id" :: link_simulation_keys ++ previous_keys
                        ++ link_style_keys →
                 deref (useNetwork p' st1 h1).1 l !! k = link !! k)
            (links p) out.
Proof.
  intros Hrun.
  destruct (run_render_links p p' _ _ _ _ Hrun) as (on & out & Hout & HF).
  exists on, out. split; [done|]. split; [symmetry; by eapply Forall2_length|].
  eapply Forall2_impl; [apply HF|].
  intros link l (j & hj & Hj & _ & _ & _ & Hl & Hd) k Hk. simpl.
  rewrite Hd, styled_link_lookup, Hl by other_keys Hk.
  rewrite (run_link_lookup _ _ _ _ _ _ _ _ Hrun Hj) by other_keys Hk.
  apply link_copy_lookup. intros ->. apply Hk. left.
Qed.

(** The endpoints of the link copies of a run that went through, in terms
    of the input. *)
Lemma run_link_endpoints p st h h1 st1 j link :
  useNetwork_effect p st h = (h1, inr st1) →
  links p !! j = Some link →
  ∃ s t, s ∈ nodes_at p h ∧ t ∈ nodes_at p h ∧
    deref h1 (length h + length (nodes p) + j) !! "source" = Some (VRef s) ∧
    deref h1 (length h + length (nodes p) + j) !! "target" = Some (VRef t) ∧
    strict_equals (get (deref h1 s) "id") (get link "source") = true ∧
    strict_equals (get (deref h1 t) "id") (get link "target") = true ∧
    deref h1 (length h + length (nodes p) + j) !! "previousSource"
    = Some (previous_node (currentNodes st) (get (deref h1 s) "id") h1) ∧
    deref h1 (length h + length (nodes p) + j) !! "previousTarget"
    = Some (previous_node (currentNodes st) (get (deref h1 t) "id") h1).
Proof.
  intros Hrun Hj.
  destruct (effect_success _ _ _ _ _ Hrun) as (_ & _ & _ & Hall).
  destruct (Hall (length h + length (nodes p) + j))
    as (s & t & Hs & Ht & H3 & H4 & H5 & H6 & H7 & H8).
  { apply elem_of_links_at. eauto. }
  rewrite (copied_link _ _ _ _ Hj) in H5, H6. unfold get in H5 at 2.
  unfold get in H6 at 2. rewrite link_copy_lookup in H5, H6 by done.
  exists s, t. done.
Qed.

Lemma nodes_at_allocated p st h h1 r s :
  useNetwork_effect p st h = (h1, r) → s ∈ nodes_at p h → s < length h1.
Proof.
  intros Hrun Hs. rewrite (length_effect _ _ _ _ _ Hrun).
  unfold nodes_at in Hs. apply elem_of_seq in Hs. lia.
Qed.

(** X5. In every link returned after a run, [source] and [target] are
    references to nodes of the state cell that the same run has set, and
    the [id] of the node is the value the input link has as [source] (as
    [target]). *)
Theorem returned_links_are_attached p p' st h h1 st1 :
  useNetwork_effect p st h = (h1, inr st1) →
  ∃ ns on out, currentNodes st1 = Some ns ∧
    (useNetwork p' st1 h1).2 = inr (on, Some out) ∧
    Forall2 (λ link l,
               ∃ s t, s ∈ ns ∧ t ∈ ns ∧
                 get (deref (useNetwork p' st1 h1).1 l) "source" = VRef s ∧
                 get (deref (useNetwork p' st1 h1).1 l) "target" = VRef t ∧
                 strict_equals (get (deref (useNetwork p' st1 h1).1 s) "id")
                   (get link "source") = true ∧
                 strict_equals (get (deref (useNetwork p' st1 h1).1 t) "id")
                   (get link "target") = true)
            (links p) out.
Proof.
  intros Hrun.
  destruct (run_render_links p p' _ _ _ _ Hrun) as (on & out & Hout & HF).
  pose proof (useNetwork_prefix p' st1 h1) as Hpre.
  exists (nodes_at p h), on, out. split_and!; [|done|].
  { by destruct (effect_success _ _ _ _ _ Hrun) as (-> & _). }
  eapply Forall2_impl; [apply HF|].
  intros link l (j & hj & Hj & _ & _ & _ & Hl & Hd). simpl.
  destruct (run_link_endpoints _ _ _ _ _ _ _ Hrun Hj)
    as (s & t & Hs & Ht & H3 & H4 & H5 & H6 & _).
  exists s, t. split_and!; [done|done|..].
  - unfold get. by rewrite Hd, styled_link_lookup, Hl, H3 by key_out.
  - unfold get. by rewrite Hd, styled_link_lookup, Hl, H4 by key_out.
  - rewrite (deref_prefix h1); [done..|]. by eapply nodes_at_allocated.
  - rewrite (deref_prefix h1); [done..|]. by eapply nodes_at_allocated.
Qed.

(** X6. The node a returned link has as [source] or [target] is the copy
    the simulation worked on, never one of the styled nodes the hook
    returns: apart from what the simulation writes it has the properties
    of the input node, so that [link.source.color] is the [color] the
    input node has of its own, if any, and not the computed one. *)
Theorem link_endpoints_are_not_the_returned_nodes p p' st h h1 st1 :
  useNetwork_effect p st h = (h1, inr st1) →
  ∃ outn outl, (useNetwork p' st1 h1).2 = inr (Some outn, Some outl) ∧
    Forall2 (λ (_ : obj) l,
               ∀ e, e ∈ endpoint_keys →
                 ∃ s i node,
                   get (deref (useNetwork p' st1 h1).1 l) e = VRef s ∧
                   (s ∉ outn) ∧
                   nodes p !! i = Some node ∧
                   ∀ k, k ∉ simulation_keys →
                     deref (useNetwork p' st1 h1).1 s !! k = node !! k)
            (links p) outl.
Proof.
  intros Hrun.
  destruct (run_render_links p p' _ _ _ _ Hrun) as (on & outl & Houtl & HF).
  destruct (run_render_nodes p p' _ _ _ _ Hrun) as (outn & ol & Houtn & HFn).
  pose proof (useNetwork_prefix p' st1 h1) as Hpre.
  rewrite Houtl in Houtn. inversion Houtn; subst on ol. clear Houtn.
  exists outn, outl. split; [done|].
  eapply Forall2_impl; [apply HF|].
  intros link l (j & hj & Hj & _ & _ & _ & Hl & Hd) e He. simpl.
  destruct (run_link_endpoints _ _ _ _ _ _ _ Hrun Hj)
    as (s & t & Hs & Ht & H3 & H4 & _).
  assert (Hend : ∀ x, x ∈ nodes_at p h →
            (x ∉ outn) ∧ ∃ i node, nodes p !! i = Some node ∧
              ∀ k, k ∉ simulation_keys →
                deref (useNetwork p' st1 h1).1 x !! k = node !! k).
  { intros x Hx. pose proof (nodes_at_allocated _ _ _ _ _ _ Hrun Hx) as Hlt.
    split.
    - intros Hin. apply list_elem_of_lookup in Hin as [i Hi].
      destruct (Forall2_lookup_r _ _ _ _ _ HFn Hi) as (_ & _ & _ & _ & _ & ? & _).
      lia.
    - apply elem_of_nodes_at in Hx as (i & node & -> & Hi).
      exists i, node. split; [done|]. intros k Hk.
      rewrite (deref_prefix h1) by done.
      eapply run_node_lookup; [done..|]. other_keys Hk. }
  unfold endpoint_keys in He.
  apply elem_of_cons in He as [->|He];
    [|apply elem_of_cons in He as [->|He]; [|by apply elem_of_nil in He]].
  - destruct (Hend s Hs) as (Hout & i & node & Hi & Hk).
    exists s, i, node. split_and!; [|done..].
    unfold get. by rewrite Hd, styled_link_lookup, Hl, H3 by key_out.
  - destruct (Hend t Ht) as (Hout & i & node & Hi & Hk).
    exists t, i, node. split_and!; [|done..].
    unfold get. by rewrite Hd, styled_link_lookup, Hl, H4 by key_out.
Qed.

Lemma styled_link_thickness p link h :
  get (styled_link p link h) "thickness"
  = useLinkThickness
      (default_to (Defaults.linkThickness commonDefaultProps) (linkThickness p))
      h (VRef link).
Proof.
  unfold get, styled_link.
  rewrite lookup_insert_ne by done. by rewrite lookup_insert_eq.
Qed.

Lemma styled_link_color p link h :
  get (styled_link p link h) "color"
  = useInheritedColor host
      (default_to (Defaults.linkColor commonDefaultProps) (linkColor p))
      h (VRef link).
Proof. unfold get, styled_link. by rewrite lookup_insert_eq. Qed.

Lemma styled_node_borderColor p node h :
  get (styled_node p node h) "borderColor"
  = useInheritedColor host
      (default_to (Defaults.nodeBorderColor commonDefaultProps) (nodeBorderColor p))
      h (VRef node).
Proof. unfold get, styled_node. by rewrite lookup_insert_eq. Qed.

(** X7. With [thickness] the [linkThickness] given, or the default when
    none is given: when it is not a function it is the [thickness] of
    every link the hook returns, whatever the link holds, and when it is
    a function every link has the value of that function at the link of
    the state cell. *)
Theorem link_thickness_accessor p st h ls :
  allocated st h = true →
  currentLinks st = Some ls →
  ∃ on out, (useNetwork p st h).2 = inr (on, Some out) ∧
    Forall2 (λ link l,
               let thickness :=
                 default_to (Defaults.linkThickness commonDefaultProps)
                   (linkThickness p) in
               (is_function thickness = false →
                get (deref (useNetwork p st h).1 l) "thickness" = thickness) ∧
               (∀ f, thickness = VFun f →
                ∃ hj, h `prefix_of` hj ∧ hj `prefix_of` (useNetwork p st h).1 ∧
                  deref hj link = deref h link ∧
                  get (deref (useNetwork p st h).1 l) "thickness"
                  = call host f hj (VRef link)))
            ls out.
Proof.
  intros Ha Hls.
  destruct (useNetwork_links p st h ls Hls) as (on & out & Hout & HF).
  exists on, out. split; [done|].
  apply Forall2_same_length_lookup_2; [by eapply Forall2_length|].
  intros j link l Hj Hl.
  destruct (Forall2_lookup_lr _ _ _ _ _ _ HF Hj Hl) as (_ & hj & Hp1 & Hp2 & Hd).
  simpl. rewrite Hd, styled_link_thickness. split.
  - intros Hc. unfold useLinkThickness. by rewrite Hc.
  - intros f Hf. exists hj. split_and!; [done|done|..].
    + apply deref_prefix; [done|].
      eapply allocated_links; [done..|]. eapply list_elem_of_lookup_2, Hj.
    + by rewrite Hf.
Qed.

(** X8. The inherited colours are computed on the records of the state
    cells, before any style is added: the function of a border colour is
    given the copy of the node, in which [color] is the input node's own
    and not the computed colour, and the function of a link colour is
    given the copy of the link. *)
Theorem inherited_colors_see_the_unstyled_records p p' st h h1 st1 :
  useNetwork_effect p st h = (h1, inr st1) →
  ∃ outn outl, (useNetwork p' st1 h1).2 = inr (Some outn, Some outl) ∧
    Forall2 (λ node l,
               ∃ n hi, n < length h1 ∧
                 h1 `prefix_of` hi ∧ hi `prefix_of` (useNetwork p' st1 h1).1 ∧
                 get (deref (useNetwork p' st1 h1).1 l) "borderColor"
                 = useInheritedColor host
                     (default_to (Defaults.nodeBorderColor commonDefaultProps)
                        (nodeBorderColor p'))
                     hi (VRef n) ∧
                 ∀ k, k ∉ simulation_keys → deref hi n !! k = node !! k)
            (nodes p) outn ∧
    Forall2 (λ link l,
               ∃ m hj, m < length h1 ∧
                 h1 `prefix_of` hj ∧ hj `prefix_of` (useNetwork p' st1 h1).1 ∧
                 get (deref (useNetwork p' st1 h1).1 l) "color"
                 = useInheritedColor host
                     (default_to (Defaults.linkColor commonDefaultProps)
                        (linkColor p'))
                     hj (VRef m) ∧
                 ∀ k, k ∉ "id" :: link_simulation_keys ++ previous_keys →
                   deref hj m !! k = link !! k)
            (links p) outl.
Proof.
  intros Hrun.
  pose proof (length_effect _ _ _ _ _ Hrun) as Hlen.
  destruct (run_render_links p p' _ _ _ _ Hrun) as (on & outl & Houtl & HF).
  destruct (run_render_nodes p p' _ _ _ _ Hrun) as (outn & ol & Houtn & HFn).
  rewrite Houtl in Houtn. inversion Houtn; subst on ol. clear Houtn.
  exists outn, outl. split_and!; [done|..].
  - eapply Forall2_impl; [apply HFn|].
    intros node l (i & hi & Hi & _ & Hp1 & Hp2 & Hn & Hd). simpl.
    exists (length h + i), hi. split_and!; [|done|done|..].
    + apply lookup_lt_Some in Hi. lia.
    + by rewrite Hd, styled_node_borderColor.
    + intros k Hk. rewrite Hn.
      eapply run_node_lookup; [done..|]. other_keys Hk.
  - eapply Forall2_impl; [apply HF|].
    intros link l (j & hj & Hj & _ & Hp1 & Hp2 & Hl & Hd). simpl.
    exists (length h + length (nodes p) + j), hj. split_and!; [|done|done|..].
    + apply lookup_lt_Some in Hj. lia.
    + by rewrite Hd, styled_link_color.
    + intros k Hk. rewrite Hl.
      rewrite (run_link_lookup _ _ _ _ _ _ _ _ Hrun Hj) by other_keys Hk.
      apply link_copy_lookup. intros ->. apply Hk. left.
Qed.

(** ** Two runs in a row *)




(** ** The transitions of the nodes the hook returns *)

Lemma regular_transition_get node k :
  k ∈ transition_keys → k ≠ "scale" →
  get (getRegularTransition node) k = get node k.
Proof.
  unfold transition_keys. rewrite !elem_of_cons, elem_of_nil.
  intros Hk Hs. unfold get at 1. unfold getRegularTransition.
  rewrite lookup_insert_ne by done.
  destruct Hk as [->|[->|[->|[->|[->|[->|[->|[]]]]]]]]; [..|done];
    repeat (rewrite lookup_insert_ne by done);
    first [by rewrite lookup_insert_eq | by rewrite lookup_singleton_eq].
Qed.

(** X10. The regular transition of a node returned after a run animates
    the position the simulation gave the copy of the node, the border
    width given to the hook (or its default) and, as [radius], the
    [radius] the input node has of its own, the hook giving none; its
    scale is 1. *)
Theorem regular_transition_of_a_returned_node p p' st h h1 st1 :
  useNetwork_effect p st h = (h1, inr st1) →
  ∃ out ol, (useNetwork p' st1 h1).2 = inr (Some out, ol) ∧
    Forall2 (λ node l,
               ∃ i, nodes p !! i = Some node ∧
                 get (getRegularTransition (deref (useNetwork p' st1 h1).1 l)) "x"
                 = get (deref h1 (length h + i)) "x" ∧
                 get (getRegularTransition (deref (useNetwork p' st1 h1).1 l)) "y"
                 = get (deref h1 (length h + i)) "y" ∧
                 get (getRegularTransition (deref (useNetwork p' st1 h1).1 l))
                   "radius" = get node "radius" ∧
                 get (getRegularTransition (deref (useNetwork p' st1 h1).1 l))
                   "borderWidth"
                 = default_to (Defaults.nodeBorderWidth commonDefaultProps)
                     (nodeBorderWidth p') ∧
                 get (getRegularTransition (deref (useNetwork p' st1 h1).1 l))
                   "scale" = VNum 1)
            (nodes p) out.
Proof.
  intros Hrun.
  destruct (run_render_nodes p p' _ _ _ _ Hrun) as (out & ol & Hout & HF).
  exists out, ol. split; [done|].
  eapply Forall2_impl; [apply HF|].
  intros node l (i & hi & Hi & _ & _ & _ & Hn & Hd). simpl.
  exists i. split; [done|].
  rewrite !regular_transition_get by (key_in || done).
  rewrite Hd. split_and!.
  - unfold get. by rewrite styled_node_lookup, Hn by key_out.
  - unfold get. by rewrite styled_node_lookup, Hn by key_out.
  - unfold get. rewrite styled_node_lookup, Hn by key_out.
    by rewrite (run_node_lookup _ _ _ _ _ _ _ _ Hrun Hi) by key_out.
  - apply styled_node_borderWidth.
  - done.
Qed.

(** X11. The entering and the leaving transitions of a node are the
    same, and the regular transition differs from them by its scale only,
    1 instead of 0. A transition always has the seven animated
    properties, those the node lacks being [undefined]. *)
Theorem transitions_differ_by_the_scale node :
  getEnterTransition node = getExitTransition node ∧
  (∀ k, k ≠ "scale" →
     getRegularTransition node !! k = getEnterTransition node !! k) ∧
  getRegularTransition node !! "scale" = Some (VNum 1) ∧
  getEnterTransition node !! "scale" = Some (VNum 0) ∧
  (∀ k, is_Some (getRegularTransition node !! k) ↔ k ∈ transition_keys) ∧
  (∀ k, k ∈ transition_keys → k ≠ "scale" →
     getEnterTransition node !! k = Some (get node k)).
Proof.
  split_and!.
  - done.
  - intros k Hk. unfold getRegularTransition, getEnterTransition.
    by rewrite !(lookup_insert_ne _ "scale") by done.
  - done.
  - done.
  - intros k. unfold getRegularTransition, transition_keys.
    rewrite !lookup_insert_is_Some', lookup_singleton_is_Some.
    rewrite !elem_of_cons, elem_of_nil.
    split; intros H; repeat destruct H as [H|H]; subst; auto 10; done.
  - intros k. unfold transition_keys. rewrite !elem_of_cons, elem_of_nil.
    intros Hk Hs. unfold getEnterTransition.
    rewrite lookup_insert_ne by done.
    destruct Hk as [->|[->|[->|[->|[->|[->|[->|[]]]]]]]]; [..|done];
      repeat (rewrite lookup_insert_ne by done);
      first [by rewrite lookup_insert_eq | by rewrite lookup_singleton_eq].
Qed.

(** ** The component over time *)

Lemma update_both_or_none p st h :
  both_or_none st = true → both_or_none (update p st h).2 = true.
Proof.
  intros Hb. unfold update.
  destruct (useNetwork_effect p st h) as [h1 [e|st1]] eqn:Hrun; [by simpl|].
  by apply effect_success in Hrun as (-> & _).
Qed.

Lemma update_prefix p st h : h `prefix_of` (update p st h).1.
Proof.
  unfold update.
  destruct (useNetwork_effect p st h) as [h1 [e|st1]] eqn:Hrun;
    eapply effect_prefix, Hrun.
Qed.

Lemma updates_cons p ps h st :
  updates (p :: ps) h st = updates ps (update p st h).1 (update p st h).2.
Proof. unfold updates. simpl. by destruct (update p st h). Qed.

(** X12. However many updates the component goes through, with whatever
    properties and whether they fail or not, its two state cells are
    [null] together, the addresses they hold are those of objects of the
    store, and no object that was in the store is written into. *)
Theorem state_cells_after_updates ps h st :
  allocated st h = true → both_or_none st = true →
  allocated (updates ps h st).2 (updates ps h st).1 = true ∧
  both_or_none (updates ps h st).2 = true ∧
  h `prefix_of` (updates ps h st).1.
Proof.
  revert h st. induction ps as [|p ps IH]; intros h st Ha Hb; [done|].
  rewrite updates_cons.
  destruct (IH (update p st h).1 (update p st h).2) as (H1 & H2 & H3).
  - by apply update_allocated.
  - by apply update_both_or_none.
  - split_and!; [done..|]. etrans; [apply update_prefix|done].
Qed.

(** ** Defaults *)

Lemma default_to_idem d v : default_to d (default_to d v) = default_to d v.
Proof. destruct v; try done. simpl. by destruct d. Qed.

Lemma allocs_ext {A} (g g' : A → heap → obj) xs h :
  (∀ x h, g x h = g' x h) → allocs g xs h = allocs g' xs h.
Proof.
  intros Hg. revert h. induction xs as [|x xs IH]; intros h; simpl; [done|].
  by rewrite Hg, IH.
Qed.

(** X13. Giving a parameter the value of its default and omitting it
    come to the same: the run and the rendering of the properties in
    which every omitted parameter is replaced by its default are those of
    the properties themselves. *)
Theorem defaults_given_or_omitted p st h :
  useNetwork_effect (with_defaults p) st h = useNetwork_effect p st h ∧
  useNetwork (with_defaults p) st h = useNetwork p st h.
Proof.
  split.
  - unfold useNetwork_effect, effect_forces, with_defaults. simpl.
    by rewrite default_to_idem.
  - rewrite !useNetwork_unfold.
    assert (Hn : ∀ node h0, styled_node (with_defaults p) node h0
                            = styled_node p node h0).
    { intros node h0. unfold styled_node, with_defaults. simpl.
      by rewrite !default_to_idem. }
    assert (Hl : ∀ link h0, styled_link (with_defaults p) link h0
                            = styled_link p link h0).
    { intros link h0. unfold styled_link, with_defaults. simpl.
      by rewrite !default_to_idem. }
    assert (Hns : ∀ h0, styled_nodes (with_defaults p) st h0
                        = styled_nodes p st h0).
    { intros h0. unfold styled_nodes. destruct (currentNodes st); [|done].
      by apply allocs_ext. }
    assert (Hls : ∀ h0, styled_links (with_defaults p) st h0
                        = styled_links p st h0).
    { intros h0. unfold styled_links. destruct (currentLinks st); [|done].
      by apply allocs_ext. }
    simpl. by rewrite Hns, Hls.
Qed.

End Hook.

(** * The small graph, run *)

(** The builder gives the charge force the opposite of [repulsivity] as
    its strength and the two distance bounds as they are. *)
Lemma computeForces_charge linkDistance repulsivity distanceMin distanceMax center :
  Forces.charge
    (computeForces linkDistance repulsivity distanceMin distanceMax center)
  = {| Forces.strength := (- repulsivity)%float;
       Forces.distanceMin := distanceMin;
       Forces.distanceMax := distanceMax |}.
Proof. reflexivity. Qed.



(** The run of the graph without nodes gives two empty arrays. *)
Lemma not_yet_computed_is_null_witness :
  nodes demo_empty = [] ∧ links demo_empty = [] ∧
  ∃ h1 st1,
    useNetwork_effect demo_host demo_defaults demo_empty initialState []
    = (h1, inr st1) ∧
    (useNetwork demo_host demo_defaults demo_empty st1 h1).2
    = inr (Some [], Some []).
Proof.
  split; [reflexivity|]. split; [reflexivity|].
  apply (proj1 (proj2 (not_yet_computed_is_null demo_host demo_defaults
                         demo_empty []))); reflexivity.
Defined.

(** The second run of [a → b]: the link is linked to the two nodes of
    the first run. *)
Lemma previous_endpoints_witness :
  let r1 := update demo_host demo_defaults demo_graph initialState [] in
  let r2 := update demo_host demo_defaults demo_graph r1.2 r1.1 in
  allocated r1.2 r1.1 = true ∧
  useNetwork_effect demo_host demo_defaults demo_graph r1.2 r1.1
  = (r2.1, inr r2.2) ∧
  ∃ on out,
    (useNetwork demo_host demo_defaults demo_graph r2.2 r2.1).2
    = inr (on, Some out) ∧
    length out = length (links demo_graph) ∧
    ∀ l, l ∈ out → ∃ s t,
      get (deref (useNetwork demo_host demo_defaults demo_graph r2.2 r2.1).1 l)
        "source" = VRef s ∧
      get (deref (useNetwork demo_host demo_defaults demo_graph r2.2 r2.1).1 l)
        "target" = VRef t ∧
      get (deref (useNetwork demo_host demo_defaults demo_graph r2.2 r2.1).1 l)
        "previousSource"
      = previous_node (currentNodes r1.2)
          (get (deref (useNetwork demo_host demo_defaults demo_graph r2.2 r2.1).1 s)
             "id")
          (useNetwork demo_host demo_defaults demo_graph r2.2 r2.1).1 ∧
      get (deref (useNetwork demo_host demo_defaults demo_graph r2.2 r2.1).1 l)
        "previousTarget"
      = previous_node (currentNodes r1.2)
          (get (deref (useNetwork demo_host demo_defaults demo_graph r2.2 r2.1).1 t)
             "id")
          (useNetwork demo_host demo_defaults demo_graph r2.2 r2.1).1 ∧
      (currentNodes r1.2 = None →
       get (deref (useNetwork demo_host demo_defaults demo_graph r2.2 r2.1).1 l)
         "previousSource" = VUndefined ∧
       get (deref (useNetwork demo_host demo_defaults demo_graph r2.2 r2.1).1 l)
         "previousTarget" = VUndefined).
Proof.
  intros r1 r2.
  assert (Ha : allocated r1.2 r1.1 = true) by (vm_compute; reflexivity).
  assert (Hrun : useNetwork_effect demo_host demo_defaults demo_graph r1.2 r1.1
                 = (r2.1, inr r2.2)) by (vm_compute; reflexivity).
  split; [exact Ha|]. split; [exact Hrun|].
  exact (previous_endpoints demo_host demo_defaults demo_graph demo_graph
           r1.2 r1.1 r2.1 r2.2 Ha Hrun).
Defined.

(** The two links [a → b], which has the [id] [first], and [b → a],
    which has none: the ids of the links returned are [first] and
    [b.a]. *)
Lemma link_id_derivation_witness :
  let r := update demo_host demo_defaults demo_own_id initialState [] in
  useNetwork_effect demo_host demo_defaults demo_own_id initialState []
  = (r.1, inr r.2) ∧
  ∃ on out,
    (useNetwork demo_host demo_defaults demo_own_id r.2 r.1).2
    = inr (on, Some out) ∧
    Forall2 (λ link l,
               deref (useNetwork demo_host demo_defaults demo_own_id r.2 r.1).1 l
                 !! "id"
               = Some (match link !! "id" with
                       | Some v => v
                       | None =>
                           VStr (to_string demo_host (get link "source") +:+ "."
                                 +:+ to_string demo_host (get link "target"))
                       end))
            (links demo_own_id) out.
Proof.
  intros r.
  assert (Hrun : useNetwork_effect demo_host demo_defaults demo_own_id
                   initialState [] = (r.1, inr r.2)) by (vm_compute; reflexivity).
  split; [exact Hrun|].
  exact (link_id_derivation demo_host demo_defaults demo_own_id demo_own_id
           initialState [] r.1 r.2 Hrun).
Defined.

Example link_ids_of_the_demo :
  let r := update demo_host demo_defaults demo_own_id initialState [] in
  let out := useNetwork demo_host demo_defaults demo_own_id r.2 r.1 in
  out.2 = inr (Some [4; 5], Some [6; 7]) ∧
  get (deref out.1 6) "id" = VStr "first" ∧
  get (deref out.1 7) "id" = VStr "b.a".
Proof. vm_compute. repeat split; reflexivity. Qed.

(** The nodes of [a → b] are red. *)
Lemma node_color_accessor_witness :
  let r := update demo_host demo_defaults demo_graph initialState [] in
  allocated r.2 r.1 = true ∧
  currentNodes r.2 = Some [0; 1] ∧
  nodeColor demo_graph ≠ VUndefined ∧
  (is_function (nodeColor demo_graph) = false →
   useNodeColor demo_host (nodeColor demo_graph) = (λ _ _, nodeColor demo_graph)) ∧
  ∃ out ol,
    (useNetwork demo_host demo_defaults demo_graph r.2 r.1).2
    = inr (Some out, ol) ∧
    Forall2 (λ node l,
               (is_function (nodeColor demo_graph) = false →
                get (deref (useNetwork demo_host demo_defaults demo_graph r.2 r.1).1 l)
                  "color" = nodeColor demo_graph) ∧
               (∀ f, nodeColor demo_graph = VFun f →
                ∃ hi, r.1 `prefix_of` hi ∧
                  hi `prefix_of`
                    (useNetwork demo_host demo_defaults demo_graph r.2 r.1).1 ∧
                  deref hi node = deref r.1 node ∧
                  get (deref (useNetwork demo_host demo_defaults demo_graph r.2 r.1).1 l)
                    "color" = call demo_host f hi (VRef node)))
            [0; 1] out.
Proof.
  intros r.
  assert (Ha : allocated r.2 r.1 = true) by (vm_compute; reflexivity).
  assert (Hns : currentNodes r.2 = Some [0; 1]) by (vm_compute; reflexivity).
  assert (Hc : nodeColor demo_graph ≠ VUndefined) by (simpl; discriminate).
  split; [exact Ha|]. split; [exact Hns|]. split; [exact Hc|].
  exact (node_color_accessor demo_host demo_defaults demo_graph r.2 r.1 [0; 1]
           Ha Hns Hc).
Defined.

(** With the function [0] as [nodeColor] every node has its own id as
    colour, and with the function [1] as [nodeBorderWidth] every node has
    that function as border width. *)
Example styles_of_the_demo :
  let r := update demo_host demo_defaults demo_functions initialState [] in
  let out := useNetwork demo_host demo_defaults demo_functions r.2 r.1 in
  out.2 = inr (Some [3; 4], Some [5]) ∧
  get (deref out.1 3) "color" = VStr "a" ∧
  get (deref out.1 4) "color" = VStr "b" ∧
  get (deref out.1 3) "borderWidth" = VFun 1 ∧
  get (deref out.1 4) "borderWidth" = VFun 1.
Proof. vm_compute. repeat split; reflexivity. Qed.

(** C7, counterexample. With the function [1], which returns 5 on every
    node, as [nodeBorderWidth], the [borderWidth] of the first node
    returned is the function, not the 5 the function gives at that node. *)
Lemma border_width_function_is_not_applied :
  let r := update demo_host demo_defaults demo_functions initialState [] in
  let out := useNetwork demo_host demo_defaults demo_functions r.2 r.1 in
  nodeBorderWidth demo_functions = VFun 1 ∧
  currentNodes r.2 = Some [0; 1] ∧
  out.2 = inr (Some [3; 4], Some [5]) ∧
  get (deref out.1 3) "borderWidth" = VFun 1 ∧
  ∀ h, call demo_host 1 h (VRef 0) = VNum 5 ∧
       get (deref out.1 3) "borderWidth" ≠ call demo_host 1 h (VRef 0).
Proof.
  assert (H : get (deref (useNetwork demo_host demo_defaults demo_functions
                     (update demo_host demo_defaults demo_functions initialState []).2
                     (update demo_host demo_defaults demo_functions initialState []).1).1
                     3) "borderWidth" = VFun 1) by (vm_compute; reflexivity).
  cbv zeta. rewrite H. split_and!; try (vm_compute; reflexivity).
  intros h. split; [reflexivity|]. simpl. discriminate.
Qed.

Lemma node_border_width_is_stored_witness :
  let r := update demo_host demo_defaults demo_functions initialState [] in
  currentNodes r.2 = Some [0; 1] ∧
  ∃ out ol,
    (useNetwork demo_host demo_defaults demo_functions r.2 r.1).2
    = inr (Some out, ol) ∧
    Forall2 (λ (_ : loc) l,
               get (deref (useNetwork demo_host demo_defaults demo_functions r.2 r.1).1 l)
                 "borderWidth"
               = default_to (Defaults.nodeBorderWidth demo_defaults)
                   (nodeBorderWidth demo_functions))
            [0; 1] out.
Proof.
  intros r.
  assert (Hns : currentNodes r.2 = Some [0; 1]) by (vm_compute; reflexivity).
  split; [exact Hns|].
  exact (node_border_width_is_stored demo_host demo_defaults demo_functions
           r.2 r.1 [0; 1] Hns).
Defined.

(** The rendering of the first run of [a → b] leaves the three objects
    of the run as they are. *)
Lemma styling_keeps_the_layout_witness :
  let r := update demo_host demo_defaults demo_graph initialState [] in
  allocated r.2 r.1 = true ∧
  r.1 `prefix_of` (useNetwork demo_host demo_defaults demo_graph r.2 r.1).1 ∧
  (∃ out ol,
     (useNetwork demo_host demo_defaults demo_graph r.2 r.1).2
     = inr (Some out, ol) ∧
     Forall2 (λ node l,
                length r.1 ≤ l ∧
                get (deref (useNetwork demo_host demo_defaults demo_graph r.2 r.1).1 l) "x"
                = get (deref r.1 node) "x" ∧
                get (deref (useNetwork demo_host demo_defaults demo_graph r.2 r.1).1 l) "y"
                = get (deref r.1 node) "y" ∧
                ∀ k, k ∉ node_style_keys →
                  deref (useNetwork demo_host demo_defaults demo_graph r.2 r.1).1 l !! k
                  = deref r.1 node !! k)
             [0; 1] out) ∧
  (∃ on out,
     (useNetwork demo_host demo_defaults demo_graph r.2 r.1).2
     = inr (on, Some out) ∧
     Forall2 (λ link l,
                length r.1 ≤ l ∧
                ∀ k, k ∉ link_style_keys →
                  deref (useNetwork demo_host demo_defaults demo_graph r.2 r.1).1 l !! k
                  = deref r.1 link !! k)
             [2] out).
Proof.
  intros r.
  assert (Ha : allocated r.2 r.1 = true) by (vm_compute; reflexivity).
  destruct (styling_keeps_the_layout demo_host demo_defaults demo_graph
              r.2 r.1 Ha) as (H1 & H2 & H3).
  split; [exact Ha|]. split; [exact H1|]. split.
  - apply H2. vm_compute. reflexivity.
  - apply H3. vm_compute. reflexivity.
Defined.

(** C2, counterexample. With the boolean [true] as [linkDistance] nothing
    is rejected: the distance accessor is undefined, not the default, and
    the run goes through: the link is attached to the two node copies and
    the state cells are set. *)
Lemma boolean_link_distance_is_not_rejected :
  linkDistance demo_boolean_distance = VBool true ∧
  Forces.distance
    (Forces.link (effect_forces demo_defaults demo_boolean_distance)) = None ∧
  (useNetwork_effect demo_host demo_defaults demo_boolean_distance
     initialState []).2
  = inr {| currentNodes := Some [0; 1]; currentLinks := Some [2] |} ∧
  get (deref (useNetwork_effect demo_host demo_defaults demo_boolean_distance
                initialState []).1 2) "source" = VRef 0 ∧
  get (deref (useNetwork_effect demo_host demo_defaults demo_boolean_distance
                initialState []).1 2) "target" = VRef 1.
Proof. vm_compute. repeat split; reflexivity. Qed.

Lemma unsupported_link_distance_runs_witness :
  linkDistance demo_boolean_distance ≠ VUndefined ∧
  is_function (linkDistance demo_boolean_distance) = false ∧
  isNumber (linkDistance demo_boolean_distance) = false ∧
  isString (linkDistance demo_boolean_distance) = false ∧
  Forces.distance
    (Forces.link (effect_forces demo_defaults demo_boolean_distance)) = None ∧
  ∃ h',
    (dangling demo_boolean_distance = false ∧
     useNetwork_effect demo_host demo_defaults demo_boolean_distance
       initialState []
     = (h', inr {| currentNodes := Some (nodes_at demo_boolean_distance []);
                   currentLinks := Some (links_at demo_boolean_distance []) |})) ∨
    (dangling demo_boolean_distance = true ∧
     ∃ id,
       useNetwork_effect demo_host demo_defaults demo_boolean_distance
         initialState []
       = (h', inl (DanglingReferenceError id))).
Proof.
  assert (H0 : linkDistance demo_boolean_distance ≠ VUndefined)
    by (simpl; discriminate).
  split; [exact H0|]. split; [reflexivity|]. split; [reflexivity|].
  split; [reflexivity|].
  exact (unsupported_link_distance_runs demo_host demo_defaults
           demo_boolean_distance initialState [] H0 eq_refl eq_refl eq_refl).
Defined.

(** * The small graph, further *)

(** The run of [a → b] goes through. *)
Lemma run_goes_through_iff_no_link_dangles_witness :
  dangling demo_graph = false ∧
  ∃ h1 st1,
    useNetwork_effect demo_host demo_defaults demo_graph initialState []
    = (h1, inr st1).
Proof.
  split; [reflexivity|].
  apply (proj2 (proj1 (run_goes_through_iff_no_link_dangles demo_host
                         demo_defaults demo_graph initialState []))).
  reflexivity.
Defined.

(** The second run of [a → b] allocates three objects after the three of
    the first, which it leaves as they are. *)
Lemma run_keeps_the_objects_of_the_store_witness :
  let r1 := update demo_host demo_defaults demo_graph initialState [] in
  let r2 := update demo_host demo_defaults demo_graph r1.2 r1.1 in
  useNetwork_effect demo_host demo_defaults demo_graph r1.2 r1.1
  = (r2.1, inr r2.2) ∧
  r1.1 `prefix_of` r2.1 ∧
  length r2.1 = length r1.1 + 2 + 1 ∧
  ∀ l, l < length r1.1 → deref r2.1 l = deref r1.1 l.
Proof.
  intros r1 r2.
  assert (Hrun : useNetwork_effect demo_host demo_defaults demo_graph r1.2 r1.1
                 = (r2.1, inr r2.2)) by (vm_compute; reflexivity).
  destruct (run_keeps_the_objects_of_the_store demo_host demo_defaults
              demo_graph r1.2 r1.1 r2.1 (inr r2.2) Hrun) as (H1 & H2 & H3 & _).
  split; [exact Hrun|]. split; [exact H1|]. split; [exact H2|exact H3].
Defined.

(** The two nodes returned for [a → b] have the ids [a] and [b]. *)
Lemma returned_nodes_keep_the_input_witness :
  let r := update demo_host demo_defaults demo_graph initialState [] in
  useNetwork_effect demo_host demo_defaults demo_graph initialState []
  = (r.1, inr r.2) ∧
  ∃ out ol,
    (useNetwork demo_host demo_defaults demo_graph r.2 r.1).2
    = inr (Some out, ol) ∧
    length out = 2 ∧
    Forall2 (λ node l,
               get (deref (useNetwork demo_host demo_defaults demo_graph r.2 r.1).1 l)
                 "id" = get node "id")
            [demo_node "a"; demo_node "b"] out.
Proof.
  intros r.
  assert (Hrun : useNetwork_effect demo_host demo_defaults demo_graph
                   initialState [] = (r.1, inr r.2)) by (vm_compute; reflexivity).
  split; [exact Hrun|].
  destruct (returned_nodes_keep_the_input demo_host demo_defaults demo_graph
              demo_graph initialState [] r.1 r.2 Hrun) as (out & ol & H1 & H2 & H3).
  exists out, ol. split; [exact H1|]. split; [exact H2|].
  eapply Forall2_impl; [exact H3|]. intros node l [Hid _]. exact Hid.
Defined.

(** The two links of the graph in which one link has an [id] of its own
    are returned in their order. *)
Lemma returned_links_keep_the_input_witness :
  let r := update demo_host demo_defaults demo_own_id initialState [] in
  useNetwork_effect demo_host demo_defaults demo_own_id initialState []
  = (r.1, inr r.2) ∧
  ∃ on out,
    (useNetwork demo_host demo_defaults demo_own_id r.2 r.1).2
    = inr (on, Some out) ∧
    length out = 2.
Proof.
  intros r.
  assert (Hrun : useNetwork_effect demo_host demo_defaults demo_own_id
                   initialState [] = (r.1, inr r.2)) by (vm_compute; reflexivity).
  split; [exact Hrun|].
  destruct (returned_links_keep_the_input demo_host demo_defaults demo_own_id
              demo_own_id initialState [] r.1 r.2 Hrun) as (on & out & H1 & H2 & _).
  exists on, out. split; [exact H1|exact H2].
Defined.

(** The link returned for [a → b] is attached to the two node copies. *)
Lemma returned_links_are_attached_witness :
  let r := update demo_host demo_defaults demo_graph initialState [] in
  useNetwork_effect demo_host demo_defaults demo_graph initialState []
  = (r.1, inr r.2) ∧
  ∃ ns on out, currentNodes r.2 = Some ns ∧
    (useNetwork demo_host demo_defaults demo_graph r.2 r.1).2
    = inr (on, Some out) ∧
    Forall2 (λ (_ : obj) l,
               ∃ s t, s ∈ ns ∧ t ∈ ns ∧
                 get (deref (useNetwork demo_host demo_defaults demo_graph r.2 r.1).1 l)
                   "source" = VRef s ∧
                 get (deref (useNetwork demo_host demo_defaults demo_graph r.2 r.1).1 l)
                   "target" = VRef t)
            [demo_link "a" "b"] out.
Proof.
  intros r.
  assert (Hrun : useNetwork_effect demo_host demo_defaults demo_graph
                   initialState [] = (r.1, inr r.2)) by (vm_compute; reflexivity).
  split; [exact Hrun|].
  destruct (returned_links_are_attached demo_host demo_defaults demo_graph
              demo_graph initialState [] r.1 r.2 Hrun)
    as (ns & on & out & H1 & H2 & H3).
  exists ns, on, out. split; [exact H1|]. split; [exact H2|].
  eapply Forall2_impl; [exact H3|].
  intros link l (s & t & Hs & Ht & H4 & H5 & _). exists s, t. auto.
Defined.

(** The endpoints of the link returned for [a → b] are not the two nodes
    returned. *)
Lemma link_endpoints_are_not_the_returned_nodes_witness :
  let r := update demo_host demo_defaults demo_graph initialState [] in
  useNetwork_effect demo_host demo_defaults demo_graph initialState []
  = (r.1, inr r.2) ∧
  ∃ outn outl,
    (useNetwork demo_host demo_defaults demo_graph r.2 r.1).2
    = inr (Some outn, Some outl) ∧
    Forall2 (λ (_ : obj) l,
               ∀ e, e ∈ endpoint_keys →
                 ∃ s,
                   get (deref (useNetwork demo_host demo_defaults demo_graph r.2 r.1).1 l)
                     e = VRef s ∧
                   (s ∉ outn))
            [demo_link "a" "b"] outl.
Proof.
  intros r.
  assert (Hrun : useNetwork_effect demo_host demo_defaults demo_graph
                   initialState [] = (r.1, inr r.2)) by (vm_compute; reflexivity).
  split; [exact Hrun|].
  destruct (link_endpoints_are_not_the_returned_nodes demo_host demo_defaults
              demo_graph demo_graph initialState [] r.1 r.2 Hrun)
    as (outn & outl & H1 & H2).
  exists outn, outl. split; [exact H1|].
  eapply Forall2_impl; [exact H2|].
  intros link l H e He. destruct (H e He) as (s & i & node & H3 & H4 & _).
  exists s. auto.
Defined.

(** The link returned for [a → b] has the default thickness. *)
Lemma link_thickness_accessor_witness :
  let r := update demo_host demo_defaults demo_graph initialState [] in
  allocated r.2 r.1 = true ∧
  currentLinks r.2 = Some [2] ∧
  ∃ on out,
    (useNetwork demo_host demo_defaults demo_graph r.2 r.1).2
    = inr (on, Some out) ∧
    Forall2 (λ (_ : loc) l,
               get (deref (useNetwork demo_host demo_defaults demo_graph r.2 r.1).1 l)
                 "thickness" = VNum 1)
            [2] out.
Proof.
  intros r.
  assert (Ha : allocated r.2 r.1 = true) by (vm_compute; reflexivity).
  assert (Hls : currentLinks r.2 = Some [2]) by (vm_compute; reflexivity).
  split; [exact Ha|]. split; [exact Hls|].
  destruct (link_thickness_accessor demo_host demo_defaults demo_graph
              r.2 r.1 [2] Ha Hls) as (on & out & H1 & H2).
  exists on, out. split; [exact H1|].
  eapply Forall2_impl; [exact H2|].
  intros link l [H _]. apply H. reflexivity.
Defined.

Lemma inherited_colors_see_the_unstyled_records_witness :
  let r := update demo_host demo_defaults demo_graph initialState [] in
  useNetwork_effect demo_host demo_defaults demo_graph initialState []
  = (r.1, inr r.2) ∧
  ∃ outn outl,
    (useNetwork demo_host demo_defaults demo_graph r.2 r.1).2
    = inr (Some outn, Some outl) ∧
    length outn = 2 ∧ length outl = 1.
Proof.
  intros r.
  assert (Hrun : useNetwork_effect demo_host demo_defaults demo_graph
                   initialState [] = (r.1, inr r.2)) by (vm_compute; reflexivity).
  split; [exact Hrun|].
  destruct (inherited_colors_see_the_unstyled_records demo_host demo_defaults
              demo_graph demo_graph initialState [] r.1 r.2 Hrun)
    as (outn & outl & H1 & H2 & H3).
  exists outn, outl. split; [exact H1|].
  split; symmetry; [exact (Forall2_length _ _ _ H2)|exact (Forall2_length _ _ _ H3)].
Defined.


(** The regular transitions of the nodes returned for [a → b] have the
    border width 2 and no radius. *)
Lemma regular_transition_of_a_returned_node_witness :
  let r := update demo_host demo_defaults demo_graph initialState [] in
  useNetwork_effect demo_host demo_defaults demo_graph initialState []
  = (r.1, inr r.2) ∧
  ∃ out ol,
    (useNetwork demo_host demo_defaults demo_graph r.2 r.1).2
    = inr (Some out, ol) ∧
    Forall2 (λ (_ : obj) l,
               get (getRegularTransition
                      (deref (useNetwork demo_host demo_defaults demo_graph r.2 r.1).1 l))
                 "radius" = VUndefined ∧
               get (getRegularTransition
                      (deref (useNetwork demo_host demo_defaults demo_graph r.2 r.1).1 l))
                 "borderWidth" = VNum 2)
            [demo_node "a"; demo_node "b"] out.
Proof.
  intros r.
  assert (Hrun : useNetwork_effect demo_host demo_defaults demo_graph
                   initialState [] = (r.1, inr r.2)) by (vm_compute; reflexivity).
  split; [exact Hrun|].
  destruct (regular_transition_of_a_returned_node demo_host demo_defaults
              demo_graph demo_graph initialState [] r.1 r.2 Hrun)
    as (out & ol & H1 & H2).
  exists out, ol. split; [exact H1|].
  assert (Hr : ∀ node, node ∈ [demo_node "a"; demo_node "b"] →
            get node "radius" = VUndefined).
  { intros node Hn. apply elem_of_cons in Hn as [->|Hn]; [reflexivity|].
    apply elem_of_cons in Hn as [->|Hn]; [reflexivity|].
    by apply elem_of_nil in Hn. }
  apply Forall2_same_length_lookup_2; [exact (Forall2_length _ _ _ H2)|].
  intros i node l Hi Hl.
  destruct (Forall2_lookup_lr _ _ _ _ _ _ H2 Hi Hl) as (j & _ & _ & _ & H3 & H4 & _).
  split; [|exact H4].
  rewrite H3. apply Hr. eapply list_elem_of_lookup_2, Hi.
Defined.

(** A run that goes through, one that fails and one more that goes
    through. *)
Lemma state_cells_after_updates_witness :
  allocated initialState [] = true ∧
  both_or_none initialState = true ∧
  allocated
    (updates demo_host demo_defaults
       [demo_graph; demo_dangling; demo_functions] [] initialState).2
    (updates demo_host demo_defaults
       [demo_graph; demo_dangling; demo_functions] [] initialState).1 = true ∧
  both_or_none
    (updates demo_host demo_defaults
       [demo_graph; demo_dangling; demo_functions] [] initialState).2 = true.
Proof.
  split; [reflexivity|]. split; [reflexivity|].
  destruct (state_cells_after_updates demo_host demo_defaults
              [demo_graph; demo_dangling; demo_functions] [] initialState
              eq_refl eq_refl) as (H1 & H2 & _).
  split; [exact H1|exact H2].
Defined.
